(** * CLIPTextEncoder: a shallow embedding of [clip_text.py]

    The executor wraps three external libraries: [transformers] / [torch]
    (tokenizer and CLIP text tower), [docarray] (documents, path selection,
    batching) and [jina] (the hosting runtime).  The code of the repository
    itself is the class [CLIPTextEncoder] with its constructor [__init__],
    the request handler [encode] and the helper [_generate_input_tokens].

    Documents are Python objects shared by reference: a [DocumentArray] is a
    list of references into a store, and [doc.embedding = v] is an update of
    the store.  Exceptions are modelled by an outcome type; the store that an
    exception leaves behind stays observable. *)

From stdpp Require Import gmap strings list fin_maps.

(** ** Python values, exceptions and the state/exception monad *)

(** Values found in the [parameters] dictionary of a request. *)
Inductive pyval : Type :=
  | PNone
  | PInt (n : Z)
  | PStr (s : string).

(** A raised exception: its class name and its message. *)
Inductive exn : Type :=
  | Exception (cls msg : string).

Definition ValueError (msg : string) : exn := Exception "ValueError" msg.

(** What a call yields: a returned value or a raised exception. *)
Inductive outcome (A : Type) : Type :=
  | Returned (a : A)
  | Raised (e : exn).
Arguments Returned {A} a.
Arguments Raised {A} e.

(** Computations over a mutable state [S] that may raise.  The state reached
    when an exception is raised is kept. *)
Definition M (S A : Type) : Type := S → outcome A * S.

Definition ret {S A} (a : A) : M S A := λ s, (Returned a, s).

Definition raise {S A} (e : exn) : M S A := λ s, (Raised e, s).

Definition bind {S A B} (m : M S A) (k : A → M S B) : M S B :=
  λ s, match m s with
       | (Returned a, s') => k a s'
       | (Raised e, s') => (Raised e, s')
       end.

(** A call into a library that does not touch the state. *)
Definition call {S A} (r : exn + A) : M S A :=
  match r with
  | inl e => raise e
  | inr a => ret a
  end.

Definition get {S} : M S S := λ s, (Returned s, s).

Definition modify {S} (f : S → S) : M S unit := λ s, (Returned tt, f s).

Declare Scope py_scope.
Delimit Scope py_scope with py.
Notation "x <- m ;; k" := (bind m (λ x, k))
  (at level 100, m at next level, right associativity) : py_scope.
Notation "m ;;; k" := (bind m (λ _, k))
  (at level 100, right associativity) : py_scope.
Open Scope py_scope.

(** [for x in xs: body x] *)
Fixpoint for_each {S A} (xs : list A) (body : A → M S unit) : M S unit :=
  match xs with
  | [] => ret tt
  | x :: rest => body x ;;; for_each rest body
  end.

(** [d.get(key, default)] *)
Definition dict_get (d : gmap string pyval) (key : string) (dflt : pyval) : pyval :=
  match d !! key with
  | Some v => v
  | None => dflt
  end.

(** Truth value of an [Optional[str]]: [None] and [''] are falsy. *)
Definition truthy (s : option string) : bool :=
  match s with
  | Some s => negb (String.eqb s "")
  | None => false
  end.

(** [a or b] for an [Optional[str]] [a] and a [str] [b]. *)
Definition py_or (a : option string) (b : string) : string :=
  match a with
  | Some s => if truthy a then s else b
  | None => b
  end.

(** ** The external libraries *)

(** [transformers] and [torch]: the tokenizer, the model and the tensors they
    exchange are opaque.  Every entry point may raise. *)
Class Transformers : Type := {
  scalar : Type;
  Tokenizer : Type;
  Model : Type;
  BatchEncoding : Type;
  (** [CLIPTokenizer.from_pretrained(name)] *)
  CLIPTokenizer_from_pretrained : string → exn + Tokenizer;
  (** [CLIPModel.from_pretrained(name)] *)
  CLIPModel_from_pretrained : string → exn + Model;
  (** [model.eval().to(device)]: the module is switched to inference mode
      and moved in place; the result is the module after the move. *)
  eval_to : Model → string → exn + Model;
  (** [tokenizer(texts, max_length=n, padding='longest', truncation=True,
      return_tensors='pt')] *)
  tokenizer_call : Tokenizer → list string → Z → exn + BatchEncoding;
  (** [{k: v.to(device) for k, v in input_tokens.items()}] *)
  tokens_to : BatchEncoding → string → exn + BatchEncoding;
  (** [model.get_text_features] on the keyword arguments [input_tokens],
      followed by [.cpu().numpy()]: the rows of the resulting
      two-dimensional array. *)
  get_text_features : Model → BatchEncoding → exn + list (list scalar);
}.

(** ** Documents and the object store *)

Definition ref := nat.

Section Documents.
Context `{Transformers}.

(** A [docarray.Document].  [text] is [None] when the field is absent;
    [embedding] is [None] while it is unset. *)
Record Document : Type := mkDocument {
  id : string;
  text : option string;
  embedding : option (list scalar);
  tags : list (string * string);
  chunks : list ref;
}.

(** [doc.embedding = v] *)
Definition set_embedding (v : list scalar) (d : Document) : Document :=
  {| id := id d; text := text d; embedding := Some v;
     tags := tags d; chunks := chunks d |}.

(** The same document up to its [embedding] field. *)
Definition same_but_embedding (d d' : Document) : Prop :=
  id d' = id d ∧ text d' = text d ∧ tags d' = tags d ∧ chunks d' = chunks d.
End Documents.

(** The store of documents; a [DocumentArray] is a list of references. *)
Abbreviation store := (gmap ref Document).
Abbreviation DocumentArray := (list ref).

(** [docarray]'s path selection [docs[path]]: which documents a path selects
    depends on the documents (their chunks), and an ill-formed path raises.
    An index that makes [docs[...]] give back one document instead of an
    array (an integer, a document id) is not covered. *)
Class DocArray `{Transformers} : Type := {
  getitem : store → DocumentArray → pyval → exn + DocumentArray;
}.

(** [da[i:j]] *)
Definition slice {A} (da : list A) (i j : nat) : list A :=
  take (j - i) (drop i da).

(** Modelled from the spec: [DocumentArray.batch] belongs to [docarray] and is
    not under src/.  A batch is "a contiguous, order-preserving partition of
    the filtered sub-sequence into chunks of at most [batch_size] records";
    25 records with batch size 10 give batches of 10, 10 and 5.  The batch
    size is "a positive integer"; any other value makes the call fail.  The
    k-th batch is the slice [da[k * batch_size : (k + 1) * batch_size]], for
    k below the ceiling of [len(da) / batch_size]. *)
Definition batch {A} (da : list A) (batch_size : pyval) : exn + list (list A) :=
  match batch_size with
  | PInt n =>
      if (0 <? n)%Z then
        let bs := Z.to_nat n in
        let n_batches := (length da + bs - 1) / bs in
        inr (map (λ k, slice da (k * bs) ((k + 1) * bs)) (seq 0 n_batches))
      else inl (ValueError "`batch_size` should be a positive integer")
  | _ => inl (ValueError "`batch_size` should be a positive integer")
  end.

(** ** The executor *)

(** An entry of the log kept by the [warnings] module. *)
Record Warning : Type := mkWarning {
  message : string;
  category : string;
}.

(** [warnings.warn(message, category, stacklevel=2)] *)
Definition warn (message category : string) : M (list Warning) unit :=
  modify (λ log, log ++ [mkWarning message category]).

Section Executor.
Context `{DocArray}.

(** The attributes of a constructed [CLIPTextEncoder]. *)
Record CLIPTextEncoder : Type := mkCLIPTextEncoder {
  access_paths : string;
  batch_size : Z;
  pretrained_model_name_or_path : string;
  base_tokenizer_model : string;
  max_length : Z;
  device : string;
  tokenizer : Tokenizer;
  model : Model;
}.

(** [CLIPTextEncoder.__init__].  The remaining positional and keyword
    arguments go to the constructor of [jina.Executor] and play no part
    here.  The state is the log of the [warnings] module. *)
Definition __init__
    (pretrained_model_name_or_path : string)
    (base_tokenizer_model : option string)
    (max_length : Z)
    (device : string)
    (access_paths : string)
    (traversal_paths : option string)
    (batch_size : Z) : M (list Warning) CLIPTextEncoder :=
  self_access_paths <-
    match traversal_paths with
    | Some traversal_paths =>
        warn "'traversal_paths' will be deprecated in the future, please use 'access_paths'."
             "DeprecationWarning" ;;;
        ret traversal_paths
    | None => ret access_paths
    end ;;
  let self_base_tokenizer_model :=
    py_or base_tokenizer_model pretrained_model_name_or_path in
  self_tokenizer <- call (CLIPTokenizer_from_pretrained self_base_tokenizer_model) ;;
  self_model <- call (CLIPModel_from_pretrained pretrained_model_name_or_path) ;;
  self_model <- call (eval_to self_model device) ;;
  ret (mkCLIPTextEncoder self_access_paths batch_size
         pretrained_model_name_or_path self_base_tokenizer_model
         max_length device self_tokenizer self_model).

(** The defaults of the keyword arguments of the constructor. *)
Definition default_init : M (list Warning) CLIPTextEncoder :=
  __init__ "openai/clip-vit-base-patch32" None 77 "cpu" "@r" None 32.

(** [x.text] for the document behind reference [x]. *)
Definition text_of (h : store) (x : ref) : option string :=
  h !! x ≫= text.

(** [docs_batch.texts] *)
Definition texts (docs_batch : DocumentArray) : M store (list string) :=
  h <- get ;;
  ret (map (λ x, default "" (text_of h x)) docs_batch).

(** [doc.embedding = embedding] *)
Definition setattr_embedding (doc : ref) (embedding : list scalar) : M store unit :=
  modify (alter (set_embedding embedding) doc).

(** [CLIPTextEncoder._generate_input_tokens] *)
Definition _generate_input_tokens (self : CLIPTextEncoder) (texts : list string)
    : M store BatchEncoding :=
  input_tokens <- call (tokenizer_call (tokenizer self) texts (max_length self)) ;;
  input_tokens <- call (tokens_to input_tokens (device self)) ;;
  ret input_tokens.

(** The iterable of the [for] statement of [encode]: the documents selected
    by the effective path, filtered on the truth value of their text, in
    batches of the effective batch size. *)
Definition encode_batches (self : CLIPTextEncoder) (docs : DocumentArray)
    (parameters : gmap string pyval) : M store (list DocumentArray) :=
  h <- get ;;
  selected <- call (getitem h docs
                (dict_get parameters "access_paths" (PStr (access_paths self)))) ;;
  let filtered := List.filter (λ x, truthy (text_of h x)) selected in
  call (batch filtered (dict_get parameters "batch_size" (PInt (batch_size self)))).

(** The body of the [for] statement of [encode], run under
    [torch.inference_mode()], which changes no value. *)
Definition encode_body (self : CLIPTextEncoder) (docs_batch : DocumentArray)
    : M store unit :=
  text_batch <- texts docs_batch ;;
  input_tokens <- _generate_input_tokens self text_batch ;;
  embeddings <- call (get_text_features (model self) input_tokens) ;;
  for_each (zip docs_batch embeddings)
    (λ '(doc, embedding), setattr_embedding doc embedding).

(** [CLIPTextEncoder.encode] *)
Definition encode (self : CLIPTextEncoder) (docs : DocumentArray)
    (parameters : gmap string pyval) : M store unit :=
  batches <- encode_batches self docs parameters ;;
  for_each batches (encode_body self).
End Executor.

(** ** A small executable instance of the libraries

    Used to run the executor on concrete requests.  The model embeds a text
    as 512 copies of its length, fails on a batch that holds the text
    ["<unk>"], and the loaders reject the empty name. *)
Module Toy.
Definition from_pretrained (name : string) : exn + string :=
  if String.eqb name "" then inl (Exception "OSError" "cannot load") else inr name.

Definition features (toks : list string) : exn + list (list nat) :=
  if existsb (String.eqb "<unk>") toks
  then inl (Exception "RuntimeError" "forward pass failed")
  else inr (map (λ t, replicate 512 (String.length t)) toks).

#[global] Instance transformers : Transformers := {|
  scalar := nat;
  Tokenizer := string;
  Model := string;
  BatchEncoding := list string;
  CLIPTokenizer_from_pretrained := from_pretrained;
  CLIPModel_from_pretrained := from_pretrained;
  eval_to := λ m _, inr m;
  tokenizer_call := λ _ texts _, inr texts;
  tokens_to := λ toks _, inr toks;
  get_text_features := λ _ toks, features toks;
|}.

(** ['@r'] selects the documents themselves, ['@c'] their chunks. *)
Definition select (h : store) (docs : DocumentArray) (path : pyval)
    : exn + DocumentArray :=
  match path with
  | PStr "@r" => inr docs
  | PStr "@c" => inr (flat_map (λ x, default [] (chunks <$> h !! x)) docs)
  | _ => inl (Exception "IndexError" "unsupported path")
  end.

#[global] Instance docarray : DocArray := {| getitem := select |}.

Definition doc (i t : string) : Document := mkDocument i (Some t) None [] [].

(** An executor built by the constructor with its defaults. *)
Definition executor : CLIPTextEncoder :=
  mkCLIPTextEncoder "@r" 32 "openai/clip-vit-base-patch32"
    "openai/clip-vit-base-patch32" 77 "cpu"
    "openai/clip-vit-base-patch32" "openai/clip-vit-base-patch32".

(** An executor built with a tokenizer identifier of its own. *)
Definition executor16 : CLIPTextEncoder :=
  mkCLIPTextEncoder "@r" 32 "openai/clip-vit-base-patch32"
    "openai/clip-vit-base-patch16" 77 "cpu"
    "openai/clip-vit-base-patch16" "openai/clip-vit-base-patch32".

(** Three documents: one with text, one with empty text, one with text. *)
Definition h3 : store :=
  <[0 := doc "a" "hello"]> (<[1 := doc "b" ""]> (<[2 := doc "c" "hi"]> ∅)).

(** The 25 documents of a request, each with the same text. *)
Definition docs25 : DocumentArray := seq 0 25.

Definition h25 : store :=
  list_to_map (map (λ x, (x, doc "d" "just some random text here")) docs25).

(** A document with two chunks. *)
Definition h_nested : store :=
  <[0 := mkDocument "root" (Some "title") None [] [1; 2]]>
    (<[1 := doc "c1" "hello"]> (<[2 := doc "c2" "hi"]> ∅)).

(** A request whose second batch fails. *)
Definition h_fail : store :=
  <[0 := doc "a" "hello"]> (<[1 := doc "b" "<unk>"]> (<[2 := doc "c" "hi"]> ∅)).

(** The 50 documents of the integration test, each with the same text. *)
Definition docs50 : DocumentArray := seq 0 50.

Definition h50 : store :=
  list_to_map (map (λ x, (x, doc "d" "just some random text here")) docs50).

(** A document that already carries an embedding. *)
Definition stale : Document := mkDocument "a" (Some "hello") (Some [7; 7]) [] [].

Definition h_stale : store := <[0 := stale]> (<[1 := doc "b" "hi"]> ∅).
End Toy.

(** ** An instance whose model answers with one row too few

    Its text tower drops the row of the last text of a batch. *)
Module Short.
Definition transformers : Transformers := {|
  scalar := nat;
  Tokenizer := string;
  Model := string;
  BatchEncoding := list string;
  CLIPTokenizer_from_pretrained := Toy.from_pretrained;
  CLIPModel_from_pretrained := Toy.from_pretrained;
  eval_to := λ m _, inr m;
  tokenizer_call := λ _ texts _, inr texts;
  tokens_to := λ toks _, inr toks;
  get_text_features :=
    λ _ toks, inr (map (λ t, [String.length t]) (removelast toks));
|}.

Definition executor : @CLIPTextEncoder transformers :=
  @mkCLIPTextEncoder transformers "@r" 32 "m" "m" 77 "cpu" "m" "m".

Definition doc (i t : string) : @Document transformers :=
  @mkDocument transformers i (Some t) None [] [].

Definition h2 : gmap ref (@Document transformers) :=
  <[0 := doc "a" "hello"]> (<[1 := doc "b" "hi"]> ∅).
End Short.

(** ** An instance whose rows depend on the padding

    The tokenizer pads to the longest text of the batch, as [encode] asks it
    to, and the text tower answers with one row of two numbers per text: the
    length of the text and the padded width of the batch. *)
Module Pad.
Definition longest (texts : list string) : nat :=
  foldr (λ t, Nat.max (String.length t)) 0 texts.

Definition transformers : Transformers := {|
  scalar := nat;
  Tokenizer := string;
  Model := string;
  BatchEncoding := list string * nat;
  CLIPTokenizer_from_pretrained := Toy.from_pretrained;
  CLIPModel_from_pretrained := Toy.from_pretrained;
  eval_to := λ m _, inr m;
  tokenizer_call := λ _ texts _, inr (texts, longest texts);
  tokens_to := λ toks _, inr toks;
  get_text_features :=
    λ _ toks, inr (map (λ t, [String.length t; toks.2]) toks.1);
|}.

Definition docarray : @DocArray transformers :=
  {| getitem := λ _ docs path,
       match path with
       | PStr "@r" => inr docs
       | _ => inl (Exception "IndexError" "unsupported path")
       end |}.

Definition executor : @CLIPTextEncoder transformers :=
  @mkCLIPTextEncoder transformers "@r" 32 "m" "m" 77 "cpu" "m" "m".

Definition doc (i t : string) : @Document transformers :=
  @mkDocument transformers i (Some t) None [] [].

(** Three documents with texts of 5, 2 and 3 characters. *)
Definition h3 : gmap ref (@Document transformers) :=
  <[0 := doc "a" "hello"]> (<[1 := doc "b" "hi"]> (<[2 := doc "c" "abc"]> ∅)).
End Pad.

(** ** Derived notions used in the statements *)

Section Notions.
Context `{DocArray}.

(** What lines 83 and 84 of [encode] compute from the texts of a batch:
    tokenize, move to the device, run the text tower. *)
Definition embed_texts (self : CLIPTextEncoder) (text_batch : list string)
    : exn + list (list scalar) :=
  match tokenizer_call (tokenizer self) text_batch (max_length self) with
  | inl e => inl e
  | inr input_tokens =>
      match tokens_to input_tokens (device self) with
      | inl e => inl e
      | inr input_tokens => get_text_features (model self) input_tokens
      end
  end.

(** The texts that [docs_batch.texts] reads in store [h]. *)
Definition batch_texts (h : store) (docs_batch : DocumentArray) : list string :=
  map (λ x, default "" (text_of h x)) docs_batch.

(** The store after the assignments [doc.embedding = embedding], in order. *)
Definition assign (pairs : list (ref * list scalar)) (h : store) : store :=
  foldl (λ h p, alter (set_embedding p.2) p.1 h) h pairs.

(** The documents that pass the filter of [encode]. *)
Definition qualifying (h : store) (selected : DocumentArray) : DocumentArray :=
  List.filter (λ x, truthy (text_of h x)) selected.

(** [x.embedding], [None] when unset. *)
Definition embedding_of (h : store) (x : ref) : option (list scalar) :=
  h !! x ≫= embedding.

(** The model answers a batch of n texts with n rows of [d] numbers. *)
Definition output_shape (self : CLIPTextEncoder) (d : nat) : Prop :=
  ∀ text_batch out, embed_texts self text_batch = inr out →
    length out = length text_batch ∧ Forall (λ v, length v = d) out.

(** The row that the model returns for a text depends on that text only. *)
Definition row_wise (self : CLIPTextEncoder) (f : string → list scalar) : Prop :=
  ∀ text_batch out, embed_texts self text_batch = inr out →
    out = map f text_batch.

(** [h'] holds the same documents as [h], up to their embeddings. *)
Definition frame (h h' : store) : Prop :=
  ∀ x, match h !! x, h' !! x with
       | Some d, Some d' => same_but_embedding d d'
       | None, None => True
       | _, _ => False
       end.

(** The executor with another default path, another default batch size. *)
Definition with_access_paths (p : string) (self : CLIPTextEncoder)
    : CLIPTextEncoder :=
  mkCLIPTextEncoder p (batch_size self) (pretrained_model_name_or_path self)
    (base_tokenizer_model self) (max_length self) (device self)
    (tokenizer self) (model self).

Definition with_batch_size (n : Z) (self : CLIPTextEncoder) : CLIPTextEncoder :=
  mkCLIPTextEncoder (access_paths self) n (pretrained_model_name_or_path self)
    (base_tokenizer_model self) (max_length self) (device self)
    (tokenizer self) (model self).

(** The deprecation warning of the constructor. *)
Definition traversal_paths_warning : Warning :=
  mkWarning "'traversal_paths' will be deprecated in the future, please use 'access_paths'."
            "DeprecationWarning".
End Notions.

(** ** Monad and store lemmas *)

Section Lemmas.
Context `{DocArray}.
Implicit Types (h : store) (x : ref) (self : CLIPTextEncoder).

Lemma for_each_app {S A} (xs ys : list A) (body : A → M S unit) (s : S) :
  for_each (xs ++ ys) body s =
  match for_each xs body s with
  | (Returned _, s') => for_each ys body s'
  | (Raised e, s') => (Raised e, s')
  end.
Proof.
  revert s. induction xs as [|a xs IH]; intros s; simpl; [done|].
  unfold bind. destruct (body a s) as [[[]|e] s']; [apply IH|done].
Qed.

Lemma for_each_setattr pairs h :
  for_each pairs (λ '(doc, embedding), setattr_embedding doc embedding) h
  = (Returned tt, assign pairs h).
Proof.
  revert h. induction pairs as [|[x v] pairs IH]; intros h; simpl; [done|].
  unfold bind, setattr_embedding, modify. by rewrite IH.
Qed.

Lemma encode_body_eq self b h :
  encode_body self b h =
  match embed_texts self (batch_texts h b) with
  | inl e => (Raised e, h)
  | inr embeddings => (Returned tt, assign (zip b embeddings) h)
  end.
Proof.
  unfold encode_body, embed_texts, _generate_input_tokens, texts, batch_texts,
    bind, get, ret, call, raise.
  destruct (tokenizer_call _ _ _) as [e|toks]; cbn; [done|].
  destruct (tokens_to _ _) as [e|toks']; cbn; [done|].
  destruct (get_text_features _ _) as [e|embs]; cbn; [done|].
  apply for_each_setattr.
Qed.

(** *** Assignments of embeddings *)

Lemma assign_cons x v pairs h :
  assign ((x, v) :: pairs) h = assign pairs (alter (set_embedding v) x h).
Proof. done. Qed.

Lemma assign_app pairs pairs' h :
  assign (pairs ++ pairs') h = assign pairs' (assign pairs h).
Proof. apply foldl_app. Qed.

Lemma frame_refl h : frame h h.
Proof. intros x. destruct (h !! x); [by repeat split|done]. Qed.

Lemma frame_trans h1 h2 h3 : frame h1 h2 → frame h2 h3 → frame h1 h3.
Proof.
  intros H12 H23 x. specialize (H12 x). specialize (H23 x).
  destruct (h1 !! x), (h2 !! x), (h3 !! x); try done.
  destruct H12 as (?&?&?&?), H23 as (?&?&?&?).
  repeat split; congruence.
Qed.

Lemma frame_alter v x h : frame h (alter (set_embedding v) x h).
Proof.
  intros y. rewrite lookup_alter. case_decide; subst;
    destruct (h !! y); simpl; by repeat split.
Qed.

Lemma frame_assign pairs h : frame h (assign pairs h).
Proof.
  revert h. induction pairs as [|[x v] pairs IH]; intros h.
  - apply frame_refl.
  - rewrite assign_cons. eapply frame_trans; [apply frame_alter|apply IH].
Qed.

Lemma frame_text_of h h' x : frame h h' → text_of h' x = text_of h x.
Proof.
  intros Hf. specialize (Hf x). unfold text_of.
  destruct (h !! x), (h' !! x); try done. simpl. by destruct Hf as (_&->&_).
Qed.

Lemma frame_batch_texts h h' b : frame h h' → batch_texts h' b = batch_texts h b.
Proof.
  intros Hf. unfold batch_texts. apply map_ext. intros x.
  by rewrite (frame_text_of h h').
Qed.

Lemma frame_is_Some h h' x : frame h h' → is_Some (h !! x) → is_Some (h' !! x).
Proof.
  intros Hf [d Hd]. specialize (Hf x). rewrite Hd in Hf.
  destruct (h' !! x); [eauto|done].
Qed.

(** A document that is not assigned to is not changed. *)
Lemma assign_lookup_notin pairs h x :
  x ∉ pairs.*1 → assign pairs h !! x = h !! x.
Proof.
  revert h. induction pairs as [|[y v] pairs IH]; intros h Hx; [done|].
  rewrite fmap_cons in Hx. apply not_elem_of_cons in Hx as [Hne Hx].
  rewrite assign_cons, IH by done. by rewrite lookup_alter_ne.
Qed.

(** The last assignment to a document decides its embedding. *)
Lemma assign_lookup_last pairs x v pairs' h :
  x ∉ pairs'.*1 → is_Some (h !! x) →
  embedding_of (assign (pairs ++ (x, v) :: pairs') h) x = Some v.
Proof.
  intros Hx Hs. unfold embedding_of.
  rewrite assign_app, assign_cons, assign_lookup_notin by done.
  rewrite lookup_alter_eq.
  destruct (frame_is_Some h (assign pairs h) x (frame_assign _ _) Hs) as [d ->].
  done.
Qed.

(** An invariant of the embedding of a document under assignments of
    vectors that all satisfy [P]. *)
Lemma assign_embedding_inv (P : list scalar → Prop) pairs h x :
  Forall P pairs.*2 → is_Some (h !! x) →
  x ∈ pairs.*1 ∨ (∃ v, embedding_of h x = Some v ∧ P v) →
  ∃ v, embedding_of (assign pairs h) x = Some v ∧ P v.
Proof.
  revert h. induction pairs as [|[y v] pairs IH]; intros h HP Hs Hx.
  - destruct Hx as [Hx|Hx]; [by apply elem_of_nil in Hx|done].
  - rewrite assign_cons. apply Forall_cons in HP as [Hv HP].
    apply IH; [done|eapply frame_is_Some; [apply frame_alter|done]|].
    destruct (decide (x = y)) as [->|Hne].
    + right. exists v. split; [|done]. unfold embedding_of.
      rewrite lookup_alter_eq. by destruct Hs as [d ->].
    + destruct Hx as [Hx|Hx].
      * left. rewrite fmap_cons in Hx. by apply elem_of_cons in Hx as [?|?].
      * right. unfold embedding_of. by rewrite lookup_alter_ne.
Qed.

(** Assigning [g x] to every [x] of a list: the resulting store. *)
Lemma assign_map_lookup (g : ref → list scalar) b h x :
  assign (map (λ y, (y, g y)) b) h !! x =
  if decide (x ∈ b) then set_embedding (g x) <$> h !! x else h !! x.
Proof.
  revert h. induction b as [|y b IH]; intros h.
  - case_decide as Hx; [by apply elem_of_nil in Hx|done].
  - rewrite map_cons, assign_cons, IH.
    destruct (decide (x = y)) as [->|Hne].
    + rewrite lookup_alter_eq, (decide_True (P := y ∈ y :: b)) by left.
      case_decide; destruct (h !! y); done.
    + rewrite lookup_alter_ne by done.
      destruct (decide (x ∈ b)) as [Hb|Hb], (decide (x ∈ y :: b)) as [Hyb|Hyb];
        try done.
      * destruct Hyb. by right.
      * by apply elem_of_cons in Hyb as [?|?].
Qed.

Lemma zip_map_self {A B} (g : A → B) (l : list A) :
  zip l (map g l) = map (λ y, (y, g y)) l.
Proof. induction l; simpl; congruence. Qed.
End Lemmas.

(** ** Batching *)

Section Batching.
Context {A : Type}.
Implicit Types (da : list A) (bs k : nat).

Lemma length_slice da i j :
  length (slice da i j) = (j - i) `min` (length da - i).
Proof. unfold slice. by rewrite length_take, length_drop. Qed.

Lemma concat_slices da bs k :
  concat (map (λ k, slice da (k * bs) ((k + 1) * bs)) (seq 0 k))
  = take (k * bs) da.
Proof.
  induction k as [|k IH]; [done|].
  rewrite seq_S, map_app, concat_app, IH. simpl. rewrite app_nil_r.
  unfold slice. replace ((k + 1) * bs - k * bs) with bs by lia.
  rewrite take_take_drop. f_equal. lia.
Qed.

Lemma n_batches_cover (N bs : nat) :
  0 < bs → N ≤ (N + bs - 1) / bs * bs.
Proof.
  intros Hbs. pose proof (Nat.div_mod_eq (N + bs - 1) bs) as Hdm.
  pose proof (Nat.mod_upper_bound (N + bs - 1) bs). nia.
Qed.

Lemma n_batches_tight (N bs k : nat) :
  0 < bs → k < (N + bs - 1) / bs → k * bs < N.
Proof.
  intros Hbs Hk. pose proof (Nat.div_mod_eq (N + bs - 1) bs) as Hdm.
  pose proof (Nat.mod_upper_bound (N + bs - 1) bs). nia.
Qed.

(** With a positive batch size, [batch] cuts the array into consecutive
    non-empty slices of at most [batch_size] elements. *)
Lemma batch_positive da (n : Z) :
  (0 < n)%Z →
  ∃ batches, batch da (PInt n) = inr batches
    ∧ concat batches = da
    ∧ length batches = (length da + Z.to_nat n - 1) / Z.to_nat n
    ∧ ∀ k b, batches !! k = Some b →
        length b = Z.to_nat n `min` (length da - k * Z.to_nat n)
        ∧ 0 < length b ≤ Z.to_nat n.
Proof.
  intros Hn. unfold batch. rewrite (proj2 (Z.ltb_lt 0 n)) by done.
  set (bs := Z.to_nat n). assert (0 < bs) as Hbs by lia.
  eexists. split; [done|]. split; [|split].
  - rewrite concat_slices. apply take_ge. by apply n_batches_cover.
  - by rewrite length_map, length_seq.
  - intros k b Hk. rewrite list_lookup_fmap in Hk.
    destruct (seq 0 _ !! k) as [k'|] eqn:Hseq; [|done].
    apply lookup_seq in Hseq as [-> Hlt]. simpl in Hk.
    injection Hk as <-. rewrite length_slice.
    apply (n_batches_tight _ _ _ Hbs) in Hlt. lia.
Qed.

Lemma batch_not_positive da (v : pyval) :
  (∀ n, v = PInt n → (n ≤ 0)%Z) →
  batch da v = inl (ValueError "`batch_size` should be a positive integer").
Proof.
  intros Hv. destruct v as [|n|s]; simpl; [done| |done].
  specialize (Hv n eq_refl). by rewrite (proj2 (Z.ltb_ge 0 n)).
Qed.

Lemma batch_25_10 da :
  length da = 25 →
  ∃ batches, batch da (PInt 10) = inr batches
    ∧ map length batches = [10; 10; 5].
Proof.
  intros Hlen. eexists. split; [done|]. simpl. rewrite Hlen. simpl.
  by rewrite !length_slice, Hlen.
Qed.
End Batching.

(** ** The request handler, batch by batch *)

Section Encode.
Context `{DocArray}.
Implicit Types (h : store) (x : ref) (self : CLIPTextEncoder).
Implicit Types (b : DocumentArray) (batches : list DocumentArray).

Lemma encode_batches_eq self docs parameters h :
  encode_batches self docs parameters h =
  match getitem h docs
          (dict_get parameters "access_paths" (PStr (access_paths self))) with
  | inl e => (Raised e, h)
  | inr selected =>
      match batch (qualifying h selected)
              (dict_get parameters "batch_size" (PInt (batch_size self))) with
      | inl e => (Raised e, h)
      | inr batches => (Returned batches, h)
      end
  end.
Proof.
  unfold encode_batches, bind, get, call, qualifying.
  destruct (getitem _ _ _) as [e|selected]; cbn; [done|].
  by destruct (batch _ _).
Qed.

Lemma encode_eq self docs parameters h :
  encode self docs parameters h =
  match encode_batches self docs parameters h with
  | (Returned batches, h') => for_each batches (encode_body self) h'
  | (Raised e, h') => (Raised e, h')
  end.
Proof. done. Qed.

Lemma for_each_cons {S A} (a : A) (xs : list A) (body : A → M S unit) (s : S) :
  for_each (a :: xs) body s =
  match body a s with
  | (Returned _, s') => for_each xs body s'
  | (Raised e, s') => (Raised e, s')
  end.
Proof. done. Qed.

(** Running the loop body leaves every field but [embedding] alone. *)
Lemma frame_encode_body self b h : frame h (encode_body self b h).2.
Proof.
  rewrite encode_body_eq. destruct (embed_texts _ _); simpl.
  - apply frame_refl.
  - apply frame_assign.
Qed.

Lemma frame_for_each_body self batches h :
  frame h (for_each batches (encode_body self) h).2.
Proof.
  revert h. induction batches as [|b batches IH]; intros h.
  - apply frame_refl.
  - rewrite for_each_cons. pose proof (frame_encode_body self b h) as Hb.
    destruct (encode_body self b h) as [[[]|e] h1]; simpl in *; [|done].
    eapply frame_trans; [apply Hb|apply IH].
Qed.

(** The loop body writes to the documents of its batch only. *)
Lemma encode_body_lookup_notin self b h x :
  x ∉ b → (encode_body self b h).2 !! x = h !! x.
Proof.
  intros Hx. rewrite encode_body_eq.
  destruct (embed_texts _ _) as [e|embeddings]; simpl; [done|].
  apply assign_lookup_notin. intros Hin. apply Hx.
  apply list_elem_of_fmap in Hin as ([y v] & -> & Hin).
  by apply elem_of_zip_l in Hin.
Qed.

Lemma for_each_body_lookup_notin self batches h x :
  x ∉ concat batches → (for_each batches (encode_body self) h).2 !! x = h !! x.
Proof.
  revert h. induction batches as [|b batches IH]; intros h Hx; [done|].
  simpl in Hx. apply not_elem_of_app in Hx as [Hb Hx].
  rewrite for_each_cons. pose proof (encode_body_lookup_notin self b h x Hb) as Hl.
  destruct (encode_body self b h) as [[[]|e] h1]; simpl in *; [|done].
  by rewrite IH.
Qed.

(** A model whose rows have [d] numbers leaves a vector of [d] numbers on
    every document of every batch that it completes. *)
Lemma for_each_body_embedding self d batches h h' x :
  output_shape self d → is_Some (h !! x) →
  for_each batches (encode_body self) h = (Returned tt, h') →
  x ∈ concat batches ∨ (∃ v, embedding_of h x = Some v ∧ length v = d) →
  ∃ v, embedding_of h' x = Some v ∧ length v = d.
Proof.
  intros Hshape. revert h.
  induction batches as [|b batches IH]; intros h Hs Hrun Hx.
  - injection Hrun as <-. destruct Hx as [Hx|Hx]; [|done].
    by apply elem_of_nil in Hx.
  - rewrite for_each_cons, encode_body_eq in Hrun.
    destruct (embed_texts _ _) as [e|embeddings] eqn:Hemb; [done|].
    apply Hshape in Hemb as [Hlen Hd].
    unfold batch_texts in Hlen. rewrite length_map in Hlen.
    apply (IH _ (frame_is_Some _ _ _ (frame_assign _ _) Hs) Hrun).
    simpl in Hx. rewrite elem_of_app in Hx.
    destruct Hx as [[Hx|Hx]|Hx]; [right|by left|right].
    + apply assign_embedding_inv; [by rewrite snd_zip by lia|done|].
      left. by rewrite fst_zip by lia.
    + apply assign_embedding_inv; [by rewrite snd_zip by lia|done|by right].
Qed.

(** With a row-wise model, the completed batches assign to every document
    the row of its own text. *)
Lemma for_each_body_row_wise self f batches h h' :
  row_wise self f →
  for_each batches (encode_body self) h = (Returned tt, h') →
  h' = assign (map (λ x, (x, f (default "" (text_of h x)))) (concat batches)) h.
Proof.
  intros Hrow. revert h.
  induction batches as [|b batches IH]; intros h Hrun.
  - by injection Hrun as <-.
  - rewrite for_each_cons, encode_body_eq in Hrun.
    destruct (embed_texts _ _) as [e|embeddings] eqn:Hemb; [done|].
    apply Hrow in Hemb as ->. unfold batch_texts in Hrun.
    rewrite map_map, zip_map_self in Hrun.
    apply IH in Hrun as ->. simpl. rewrite map_app, assign_app.
    f_equal. apply map_ext. intros x.
    by rewrite (frame_text_of h _ x (frame_assign _ h)).
Qed.

Lemma row_wise_lookup self f batches h h' x :
  row_wise self f →
  for_each batches (encode_body self) h = (Returned tt, h') →
  h' !! x =
  if decide (x ∈ concat batches)
  then set_embedding (f (default "" (text_of h x))) <$> h !! x
  else h !! x.
Proof.
  intros Hrow Hrun. rewrite (for_each_body_row_wise _ _ _ _ _ Hrow Hrun).
  apply (assign_map_lookup (λ x, f (default "" (text_of h x)))).
Qed.

Lemma batch_inr_concat {A} (da : list A) (v : pyval) (bl : list (list A)) :
  batch da v = inr bl → concat bl = da.
Proof.
  intros Hb. destruct v as [|n|s]; [done| |done].
  destruct (decide (0 < n)%Z) as [Hn|Hn].
  - destruct (batch_positive da n Hn) as (bl' & Hb' & Hcat & _). congruence.
  - rewrite batch_not_positive in Hb; [done|]. intros ? [= <-]. lia.
Qed.

(** When the iterable of the loop is built, the store is as before and the
    batches are consecutive pieces of the qualifying documents. *)
Lemma encode_batches_inv self docs parameters h batches h' :
  encode_batches self docs parameters h = (Returned batches, h') →
  h' = h ∧ ∃ selected,
    getitem h docs (dict_get parameters "access_paths" (PStr (access_paths self)))
      = inr selected
    ∧ batch (qualifying h selected)
        (dict_get parameters "batch_size" (PInt (batch_size self))) = inr batches
    ∧ concat batches = qualifying h selected.
Proof.
  rewrite encode_batches_eq. destruct (getitem _ _ _) as [e|selected]; [done|].
  destruct (batch _ _) as [e|bl] eqn:Hb; [done|]. intros [= <- <-].
  split; [done|]. exists selected. repeat split; [done|].
  by apply batch_inr_concat in Hb.
Qed.

Lemma encode_batches_raised self docs parameters h e h' :
  encode_batches self docs parameters h = (Raised e, h') → h' = h.
Proof.
  rewrite encode_batches_eq. destruct (getitem _ _ _) as [?|selected].
  - by intros [= _ <-].
  - destruct (batch _ _); [by intros [= _ <-]|done].
Qed.

Lemma elem_of_qualifying h selected x :
  x ∈ qualifying h selected ↔ x ∈ selected ∧ truthy (text_of h x) = true.
Proof.
  unfold qualifying. rewrite !list_elem_of_In, filter_In. done.
Qed.

(** With a row-wise model, a call that returns leaves on every qualifying
    document the row of its text and leaves the others as they were. *)
Lemma encode_row_wise_lookup self f docs parameters h h' selected x :
  row_wise self f →
  getitem h docs (dict_get parameters "access_paths" (PStr (access_paths self)))
    = inr selected →
  encode self docs parameters h = (Returned tt, h') →
  h' !! x =
  if decide (x ∈ qualifying h selected)
  then set_embedding (f (default "" (text_of h x))) <$> h !! x
  else h !! x.
Proof.
  intros Hrow Hsel. rewrite encode_eq.
  destruct (encode_batches _ _ _ _) as [[batches|e] h0] eqn:Hb; [|done].
  apply encode_batches_inv in Hb as (-> & selected' & Hsel' & _ & Hcat).
  assert (selected' = selected) as -> by congruence.
  intros Hrun. rewrite (row_wise_lookup _ _ _ _ _ x Hrow Hrun), Hcat. done.
Qed.

(** A model that never raises makes the call return, once the selection
    succeeds and the batch size is a positive integer. *)
Lemma for_each_body_returns self batches h :
  (∀ text_batch, ∃ out, embed_texts self text_batch = inr out) →
  ∃ h', for_each batches (encode_body self) h = (Returned tt, h').
Proof.
  intros Htotal. revert h. induction batches as [|b batches IH]; intros h.
  - by eexists.
  - rewrite for_each_cons, encode_body_eq.
    destruct (Htotal (batch_texts h b)) as [out ->]. apply IH.
Qed.

Lemma encode_returns self docs parameters h selected n :
  (∀ text_batch, ∃ out, embed_texts self text_batch = inr out) →
  getitem h docs (dict_get parameters "access_paths" (PStr (access_paths self)))
    = inr selected →
  dict_get parameters "batch_size" (PInt (batch_size self)) = PInt n →
  (0 < n)%Z →
  ∃ h', encode self docs parameters h = (Returned tt, h').
Proof.
  intros Htotal Hsel Hbs Hn. rewrite encode_eq, encode_batches_eq, Hsel, Hbs.
  destruct (batch_positive (qualifying h selected) n Hn) as (bl & -> & _).
  by apply for_each_body_returns.
Qed.

(** *** The constructor *)

Lemma init_eq m btm ml dev ap tp bs log :
  __init__ m btm ml dev ap tp bs log =
  let log' := match tp with
              | Some _ => log ++ [traversal_paths_warning]
              | None => log
              end in
  match CLIPTokenizer_from_pretrained (py_or btm m) with
  | inl e => (Raised e, log')
  | inr tk =>
      match CLIPModel_from_pretrained m with
      | inl e => (Raised e, log')
      | inr mdl =>
          match eval_to mdl dev with
          | inl e => (Raised e, log')
          | inr mdl' =>
              (Returned (mkCLIPTextEncoder (default ap tp) bs m (py_or btm m)
                           ml dev tk mdl'), log')
          end
      end
  end.
Proof.
  unfold __init__, bind, call, warn, modify, ret, raise.
  destruct tp as [tp|]; simpl;
    destruct (CLIPTokenizer_from_pretrained _); try done;
    destruct (CLIPModel_from_pretrained _); try done;
    destruct (eval_to _ _); done.
Qed.
End Encode.

(** ** Facts about the executable instance *)

Section ToyFacts.
Import Toy.

Lemma toy_embed_texts text_batch :
  embed_texts executor text_batch = features text_batch.
Proof. done. Qed.

Lemma toy_row_wise :
  row_wise executor (λ t, replicate 512 (String.length t)).
Proof.
  intros text_batch out. rewrite toy_embed_texts. unfold features.
  destruct (existsb _ _); [done|]. by intros [= <-].
Qed.

Lemma toy_output_shape : output_shape executor 512.
Proof.
  intros text_batch out Hout. apply toy_row_wise in Hout as ->.
  split; [by rewrite length_map|].
  apply Forall_fmap, Forall_forall. intros t _. apply length_replicate.
Qed.
End ToyFacts.

(** The padding-sensitive model keeps the contract on the shape of the rows:
    one row of two numbers per text. *)
Lemma pad_output_shape : @output_shape Pad.transformers Pad.executor 2.
Proof.
  intros text_batch out [= <-]. simpl. split; [by rewrite length_map|].
  apply Forall_fmap, Forall_forall. by intros t _.
Qed.

(** ** The claims *)

(** C1: when [encode] returns, every document that the effective access path
    selects and whose text is a non-empty string carries an embedding, a
    vector of as many numbers as the rows of the model have (512 with the
    reference model).  The shape of the rows is the contract of the model:
    a batch of n texts is answered with n rows of [d] numbers. *)
Theorem encode_sets_embedding `{DocArray} (self : CLIPTextEncoder) (d : nat)
    (docs : DocumentArray) (parameters : gmap string pyval) (h h' : store)
    (selected : DocumentArray) (x : ref) (doc : Document) :
  output_shape self d →
  getitem h docs (dict_get parameters "access_paths" (PStr (access_paths self)))
    = inr selected →
  x ∈ selected →
  h !! x = Some doc →
  truthy (text doc) = true →
  encode self docs parameters h = (Returned tt, h') →
  ∃ doc' v, h' !! x = Some doc' ∧ embedding doc' = Some v ∧ length v = d.
Proof.
  intros Hshape Hsel Hx Hdoc Htext. rewrite encode_eq.
  destruct (encode_batches _ _ _ _) as [[batches|e] h0] eqn:Hb; [|done].
  apply encode_batches_inv in Hb as (-> & selected' & Hsel' & _ & Hcat).
  assert (selected' = selected) as -> by congruence.
  intros Hrun.
  destruct (for_each_body_embedding self d batches h h' x) as (v & Hv & Hlen);
    [done|by eexists|done| |].
  - left. rewrite Hcat. apply elem_of_qualifying. split; [done|].
    unfold text_of. by rewrite Hdoc.
  - unfold embedding_of in Hv. destruct (h' !! x) as [doc'|]; [|done].
    by exists doc', v.
Qed.

Lemma returned_eta {S} (p : outcome unit * S) :
  p.1 = Returned tt → p = (Returned tt, p.2).
Proof. destruct p as [o s]. simpl. by intros ->. Qed.

Lemma encode_sets_embedding_witness :
  ∃ doc' v, (encode Toy.executor [0; 1; 2] ∅ Toy.h3).2 !! 0 = Some doc'
    ∧ embedding doc' = Some v ∧ length v = 512.
Proof.
  apply (encode_sets_embedding Toy.executor 512 [0; 1; 2] ∅ Toy.h3 _
           [0; 1; 2] 0 (Toy.doc "a" "hello")).
  - apply toy_output_shape.
  - reflexivity.
  - repeat constructor.
  - reflexivity.
  - reflexivity.
  - apply returned_eta. vm_compute. reflexivity.
Defined.

(** C2: whatever the outcome of [encode], a document of the store keeps its
    id, text, tags and chunks, no document appears or disappears, and a
    document whose text is empty or absent is exactly as it was before, its
    embedding included.  The call yields no value: its result type is [unit],
    the model of Python's [None]. *)
Theorem encode_only_writes_embedding `{DocArray} (self : CLIPTextEncoder)
    (docs : DocumentArray) (parameters : gmap string pyval) (h : store)
    (x : ref) (doc : Document) :
  h !! x = Some doc →
  (∃ doc', (encode self docs parameters h).2 !! x = Some doc'
     ∧ same_but_embedding doc doc')
  ∧ (truthy (text doc) = false →
     (encode self docs parameters h).2 !! x = Some doc)
  ∧ (∀ y, h !! y = None → (encode self docs parameters h).2 !! y = None).
Proof.
  intros Hdoc.
  assert (frame h (encode self docs parameters h).2) as Hframe.
  { rewrite encode_eq.
    destruct (encode_batches _ _ _ _) as [[batches|e] h0] eqn:Hb.
    - apply encode_batches_inv in Hb as (-> & _). apply frame_for_each_body.
    - apply encode_batches_raised in Hb as ->. apply frame_refl. }
  split; [|split].
  - specialize (Hframe x). rewrite Hdoc in Hframe.
    destruct ((encode self docs parameters h).2 !! x) as [doc'|]; [|done].
    exists doc'. by split.
  - intros Htext. rewrite <- Hdoc, encode_eq.
    destruct (encode_batches _ _ _ _) as [[batches|e] h0] eqn:Hb.
    + apply encode_batches_inv in Hb as (-> & selected & _ & _ & Hcat).
      apply for_each_body_lookup_notin. rewrite Hcat, elem_of_qualifying.
      unfold text_of. rewrite Hdoc. simpl. rewrite Htext. by intros [_ ?].
    + by apply encode_batches_raised in Hb as ->.
  - intros y Hy. specialize (Hframe y). rewrite Hy in Hframe.
    by destruct ((encode self docs parameters h).2 !! y).
Qed.

Lemma encode_only_writes_embedding_witness :
  (encode Toy.executor [0; 1; 2] ∅ Toy.h3).2 !! 1 = Some (Toy.doc "b" "")
  ∧ embedding (Toy.doc "b" "") = None.
Proof.
  split; [|reflexivity].
  apply (encode_only_writes_embedding Toy.executor [0; 1; 2] ∅ Toy.h3 1);
    reflexivity.
Defined.

(** C3, as the code has it: in a call that returns, take any batch [b] of
    the loop and the rows [embeddings] that the model produces for the texts
    of [b].  The document at position [i] of [b] carries row [i] once the
    loop has run through [b], and still when the call returns, as long as the
    same document does not come again later in the request.  And with a
    model whose rows depend on their own text only, a request that selects
    the same documents in another order leaves the same embedding on each
    document. *)
Theorem encode_order_preserving `{DocArray} (self : CLIPTextEncoder)
    (docs : DocumentArray) (parameters : gmap string pyval) (h h' : store) :
  encode self docs parameters h = (Returned tt, h') →
  (∀ pre b post embeddings i x v,
     encode_batches self docs parameters h = (Returned (pre ++ b :: post), h) →
     embed_texts self (batch_texts h b) = inr embeddings →
     b !! i = Some x →
     embeddings !! i = Some v →
     x ∉ drop (S i) b →
     embedding_of (for_each (pre ++ [b]) (encode_body self) h).2 x = Some v
     ∧ (x ∉ concat post → embedding_of h' x = Some v))
  ∧ (∀ f docs' parameters' selected selected' h'',
     row_wise self f →
     getitem h docs (dict_get parameters "access_paths" (PStr (access_paths self)))
       = inr selected →
     getitem h docs' (dict_get parameters' "access_paths" (PStr (access_paths self)))
       = inr selected' →
     selected ≡ₚ selected' →
     encode self docs' parameters' h = (Returned tt, h'') →
     h'' = h').
Proof.
  intros Hrun. split.
  - intros pre b post embeddings i x v Hb Hemb Hi Hv Hlater.
    assert (is_Some (h !! x)) as Hsome.
    { apply encode_batches_inv in Hb as (_ & selected & _ & _ & Hcat).
      assert (x ∈ qualifying h selected) as Hq.
      { rewrite <- Hcat, concat_app, concat_cons, !elem_of_app.
        right; left. by eapply list_elem_of_lookup_2. }
      apply elem_of_qualifying in Hq as [_ Hq]. unfold text_of in Hq.
      destruct (h !! x); [by eexists|done]. }
    rewrite encode_eq, Hb, for_each_app in Hrun. rewrite for_each_app.
    pose proof (frame_for_each_body self pre h) as Hframe.
    destruct (for_each pre (encode_body self) h) as [[[]|e] h1]; [|done].
    simpl in Hframe. rewrite for_each_cons, encode_body_eq in Hrun.
    rewrite for_each_cons, encode_body_eq.
    rewrite (frame_batch_texts h h1 b Hframe), Hemb in Hrun |- *.
    assert (embedding_of (assign (zip b embeddings) h1) x = Some v) as H2.
    { assert (zip b embeddings !! i = Some (x, v)) as Hz.
      { apply lookup_zip_with_Some. by exists x, v. }
      rewrite <- (take_drop_middle _ _ _ Hz).
      apply assign_lookup_last; [|by apply (frame_is_Some h)].
      intros Hin. apply Hlater.
      apply list_elem_of_fmap in Hin as ([y w] & -> & Hin).
      assert (drop (S i) (zip b embeddings)
              = zip (drop (S i) b) (drop (S i) embeddings)) as Hd
        by apply zip_with_drop.
      rewrite Hd in Hin. by apply elem_of_zip_l in Hin. }
    split; [exact H2|]. intros Hpost.
    unfold embedding_of in *.
    pose proof (for_each_body_lookup_notin self post
                  (assign (zip b embeddings) h1) x Hpost) as Hl.
    rewrite Hrun in Hl. simpl in Hl. by rewrite Hl.
  - intros f docs' parameters' selected selected' h'' Hrow Hsel Hsel' Hperm Hrun'.
    apply map_eq. intros x.
    rewrite (encode_row_wise_lookup _ _ _ _ _ _ _ x Hrow Hsel Hrun).
    rewrite (encode_row_wise_lookup _ _ _ _ _ _ _ x Hrow Hsel' Hrun').
    assert (x ∈ qualifying h selected' ↔ x ∈ qualifying h selected) as Hiff.
    { by rewrite !elem_of_qualifying, Hperm. }
    destruct (decide (x ∈ qualifying h selected')),
             (decide (x ∈ qualifying h selected)); try done; exfalso; tauto.
Qed.

Lemma encode_order_preserving_witness :
  embedding_of (for_each ([] ++ [[0; 2]]) (encode_body Toy.executor) Toy.h3).2 0
    = Some (replicate 512 5)
  ∧ embedding_of (encode Toy.executor [0; 1; 2] ∅ Toy.h3).2 2
    = Some (replicate 512 2)
  ∧ (encode Toy.executor [2; 1; 0] ∅ Toy.h3).2
    = (encode Toy.executor [0; 1; 2] ∅ Toy.h3).2.
Proof.
  assert (encode Toy.executor [0; 1; 2] ∅ Toy.h3
          = (Returned tt, (encode Toy.executor [0; 1; 2] ∅ Toy.h3).2)) as Hrun.
  { apply returned_eta. vm_compute. reflexivity. }
  destruct (encode_order_preserving Toy.executor [0; 1; 2] ∅ Toy.h3 _ Hrun)
    as [Hpos Hperm].
  split; [|split].
  - destruct (Hpos [] [0; 2] [] [replicate 512 5; replicate 512 2] 0 0
                (replicate 512 5) eq_refl eq_refl eq_refl eq_refl)
      as [Hafter _]; [|exact Hafter].
    simpl. rewrite list_elem_of_singleton. lia.
  - destruct (Hpos [] [0; 2] [] [replicate 512 5; replicate 512 2] 1 2
                (replicate 512 2) eq_refl eq_refl eq_refl eq_refl)
      as [_ Hfinal]; [apply not_elem_of_nil|].
    apply Hfinal, not_elem_of_nil.
  - apply (Hperm _ [2; 1; 0] ∅ [0; 1; 2] [2; 1; 0] _ toy_row_wise).
    + reflexivity.
    + reflexivity.
    + apply (Permutation_rev [0; 1; 2]).
    + apply returned_eta. vm_compute. reflexivity.
Defined.

(** The second half of C3 as it is written fails when the rows depend on the
    batch: the tokenizer pads to the longest text of the batch, and with a
    model that sees the padding the same three documents, in the reverse
    order and with a batch size of 2, leave another row on the second
    document. *)
Lemma encode_reordering_changes_embedding :
  (@encode Pad.transformers Pad.docarray Pad.executor [0; 1; 2]
     {["batch_size" := PInt 2]} Pad.h3).1 = Returned tt
  ∧ (@encode Pad.transformers Pad.docarray Pad.executor [2; 1; 0]
       {["batch_size" := PInt 2]} Pad.h3).1 = Returned tt
  ∧ @embedding_of Pad.transformers
      (@encode Pad.transformers Pad.docarray Pad.executor [0; 1; 2]
         {["batch_size" := PInt 2]} Pad.h3).2 1 = Some [2; 5]
  ∧ @embedding_of Pad.transformers
      (@encode Pad.transformers Pad.docarray Pad.executor [2; 1; 0]
         {["batch_size" := PInt 2]} Pad.h3).2 1 = Some [2; 3]
  ∧ @embedding_of Pad.transformers
      (@encode Pad.transformers Pad.docarray Pad.executor [0; 1; 2]
         {["batch_size" := PInt 2]} Pad.h3).2 1
    ≠ @embedding_of Pad.transformers
        (@encode Pad.transformers Pad.docarray Pad.executor [2; 1; 0]
           {["batch_size" := PInt 2]} Pad.h3).2 1.
Proof. repeat split; vm_compute; (reflexivity || discriminate). Qed.

(** C4: with a positive batch size [n], the batches that [encode] loops over
    are consecutive pieces of the qualifying documents, in order: put end to
    end they give the qualifying documents back, there are as many as the
    ceiling of their number divided by [n], the k-th holds the next [n]
    documents or the remaining ones, and none is empty or longer than [n].
    25 qualifying documents and a batch size of 10 give batches of 10, 10 and
    5 documents. *)
Theorem encode_batches_partition `{DocArray} (self : CLIPTextEncoder)
    (docs : DocumentArray) (parameters : gmap string pyval) (h : store)
    (selected : DocumentArray) (n : Z) :
  getitem h docs (dict_get parameters "access_paths" (PStr (access_paths self)))
    = inr selected →
  dict_get parameters "batch_size" (PInt (batch_size self)) = PInt n →
  (0 < n)%Z →
  ∃ batches,
    encode_batches self docs parameters h = (Returned batches, h)
    ∧ encode self docs parameters h = for_each batches (encode_body self) h
    ∧ concat batches = qualifying h selected
    ∧ length batches
      = (length (qualifying h selected) + Z.to_nat n - 1) / Z.to_nat n
    ∧ (∀ k b, batches !! k = Some b →
         length b = Z.to_nat n `min` (length (qualifying h selected) - k * Z.to_nat n)
         ∧ 0 < length b ≤ Z.to_nat n)
    ∧ (n = 10%Z → length (qualifying h selected) = 25 →
       map length batches = [10; 10; 5]).
Proof.
  intros Hsel Hbs Hn.
  destruct (batch_positive (qualifying h selected) n Hn)
    as (batches & Hb & Hcat & Hlen & Hk).
  exists batches. rewrite encode_eq, encode_batches_eq, Hsel, Hbs, Hb.
  do 4 (split; [done|]). split; [exact Hk|].
  intros -> H25. destruct (batch_25_10 _ H25) as (bl & Hbl & Hl). congruence.
Qed.

Lemma encode_batches_partition_witness :
  ∃ batches,
    encode_batches Toy.executor Toy.docs25 {["batch_size" := PInt 10]} Toy.h25
      = (Returned batches, Toy.h25)
    ∧ concat batches = Toy.docs25
    ∧ map length batches = [10; 10; 5].
Proof.
  destruct (encode_batches_partition Toy.executor Toy.docs25
              {["batch_size" := PInt 10]} Toy.h25 Toy.docs25 10)
    as (batches & Hb & _ & Hcat & _ & _ & H25).
  - reflexivity.
  - reflexivity.
  - lia.
  - exists batches. split; [done|]. split.
    + rewrite Hcat. vm_compute. reflexivity.
    + apply H25; [reflexivity|]. vm_compute. reflexivity.
Defined.

(** C5, as the code has it: with a model whose rows depend on their own text
    only, two calls of [encode] on the same documents that differ in nothing
    but the batch size and that both return leave the same store, hence the
    same embedding on every document; this holds for the batch sizes 1 and 50
    as for any other two. *)
Theorem encode_batch_size_independent `{DocArray} (self : CLIPTextEncoder)
    (f : string → list scalar) (docs : DocumentArray)
    (parameters : gmap string pyval) (n1 n2 : pyval) (h h1 h2 : store) :
  row_wise self f →
  encode self docs (<["batch_size" := n1]> parameters) h = (Returned tt, h1) →
  encode self docs (<["batch_size" := n2]> parameters) h = (Returned tt, h2) →
  h1 = h2.
Proof.
  intros Hrow Hrun1 Hrun2.
  assert (∀ n, dict_get (<["batch_size" := n]> parameters) "access_paths"
                 (PStr (access_paths self))
               = dict_get parameters "access_paths" (PStr (access_paths self)))
    as Hpath.
  { intros n. unfold dict_get. by rewrite lookup_insert_ne. }
  destruct (getitem h docs
              (dict_get parameters "access_paths" (PStr (access_paths self))))
    as [e|selected] eqn:Hsel.
  { rewrite encode_eq, encode_batches_eq, Hpath, Hsel in Hrun1. done. }
  apply map_eq. intros x.
  rewrite <- (Hpath n1) in Hsel.
  rewrite (encode_row_wise_lookup self f docs _ h h1 selected x Hrow Hsel Hrun1).
  rewrite Hpath, <- (Hpath n2) in Hsel.
  by rewrite (encode_row_wise_lookup self f docs _ h h2 selected x Hrow Hsel Hrun2).
Qed.

Lemma encode_batch_size_independent_witness :
  (encode Toy.executor [0; 1; 2] {["batch_size" := PInt 1]} Toy.h3).2
  = (encode Toy.executor [0; 1; 2] {["batch_size" := PInt 50]} Toy.h3).2.
Proof.
  apply (encode_batch_size_independent Toy.executor _ [0; 1; 2] ∅
           (PInt 1) (PInt 50) Toy.h3 _ _ toy_row_wise).
  - apply returned_eta. vm_compute. reflexivity.
  - apply returned_eta. vm_compute. reflexivity.
Defined.

(** C5 as it is written, for every model, fails when the rows depend on the
    batch: with a model that sees the padding to the longest text of the
    batch, the document with the text "hi" gets one row with batch size 1 and
    another with batch size 50, next to a longer text. *)
Lemma encode_batch_size_changes_embedding :
  (@encode Pad.transformers Pad.docarray Pad.executor [0; 1]
     {["batch_size" := PInt 1]} Pad.h3).1 = Returned tt
  ∧ (@encode Pad.transformers Pad.docarray Pad.executor [0; 1]
       {["batch_size" := PInt 50]} Pad.h3).1 = Returned tt
  ∧ @embedding_of Pad.transformers
      (@encode Pad.transformers Pad.docarray Pad.executor [0; 1]
         {["batch_size" := PInt 1]} Pad.h3).2 1 = Some [2; 2]
  ∧ @embedding_of Pad.transformers
      (@encode Pad.transformers Pad.docarray Pad.executor [0; 1]
         {["batch_size" := PInt 50]} Pad.h3).2 1 = Some [2; 5]
  ∧ @embedding_of Pad.transformers
      (@encode Pad.transformers Pad.docarray Pad.executor [0; 1]
         {["batch_size" := PInt 1]} Pad.h3).2 1
    ≠ @embedding_of Pad.transformers
        (@encode Pad.transformers Pad.docarray Pad.executor [0; 1]
           {["batch_size" := PInt 50]} Pad.h3).2 1.
Proof. repeat split; vm_compute; (reflexivity || discriminate). Qed.

(** C6: a call of [encode] selects with the value under the key
    [access_paths] of [parameters] and batches with the value under the key
    [batch_size], when these keys are there, and with the defaults of the
    executor otherwise.  So a call with an override behaves as a call without
    it on an executor built with that default, and no other key matters.
    The override is for that call only: a following call without these keys,
    on the store the first one left, selects and batches with the defaults
    of the executor again. *)
Theorem encode_parameters `{DocArray} (self : CLIPTextEncoder)
    (docs : DocumentArray) (parameters : gmap string pyval) (h : store) :
  encode self docs parameters h
  = match getitem h docs
            match parameters !! "access_paths" with
            | Some v => v
            | None => PStr (access_paths self)
            end with
    | inl e => (Raised e, h)
    | inr selected =>
        match batch (qualifying h selected)
                match parameters !! "batch_size" with
                | Some v => v
                | None => PInt (batch_size self)
                end with
        | inl e => (Raised e, h)
        | inr batches => for_each batches (encode_body self) h
        end
    end
  ∧ (∀ p, parameters !! "access_paths" = Some (PStr p) →
       encode self docs parameters h
       = encode (with_access_paths p self) docs
           (delete "access_paths" parameters) h)
  ∧ (∀ n, parameters !! "batch_size" = Some (PInt n) →
       encode self docs parameters h
       = encode (with_batch_size n self) docs
           (delete "batch_size" parameters) h)
  ∧ (∀ parameters',
       parameters' !! "access_paths" = parameters !! "access_paths" →
       parameters' !! "batch_size" = parameters !! "batch_size" →
       encode self docs parameters' h = encode self docs parameters h)
  ∧ (∀ docs' parameters',
       parameters' !! "access_paths" = None →
       parameters' !! "batch_size" = None →
       bind (encode self docs parameters)
         (λ _, encode self docs' parameters') h
       = match encode self docs parameters h with
         | (Raised e, h1) => (Raised e, h1)
         | (Returned _, h1) =>
             match getitem h1 docs' (PStr (access_paths self)) with
             | inl e => (Raised e, h1)
             | inr selected =>
                 match batch (qualifying h1 selected) (PInt (batch_size self)) with
                 | inl e => (Raised e, h1)
                 | inr batches => for_each batches (encode_body self) h1
                 end
             end
         end).
Proof.
  assert (∀ docs0 parameters0 h0,
            encode self docs0 parameters0 h0
            = match getitem h0 docs0
                      match parameters0 !! "access_paths" with
                      | Some v => v
                      | None => PStr (access_paths self)
                      end with
              | inl e => (Raised e, h0)
              | inr selected =>
                  match batch (qualifying h0 selected)
                          match parameters0 !! "batch_size" with
                          | Some v => v
                          | None => PInt (batch_size self)
                          end with
                  | inl e => (Raised e, h0)
                  | inr batches => for_each batches (encode_body self) h0
                  end
              end) as Heff.
  { intros docs0 parameters0 h0. rewrite encode_eq, encode_batches_eq.
    unfold dict_get. destruct (getitem _ _ _); [done|]. by destruct (batch _ _). }
  split; [apply Heff|]. split; [|split; [|split]].
  - intros p Hp. rewrite !encode_eq, !encode_batches_eq. unfold dict_get.
    rewrite Hp, lookup_delete_eq, lookup_delete_ne by done. reflexivity.
  - intros n Hn. rewrite !encode_eq, !encode_batches_eq. unfold dict_get.
    rewrite Hn, lookup_delete_eq, lookup_delete_ne by done. reflexivity.
  - intros parameters' Hp Hn. rewrite !encode_eq, !encode_batches_eq.
    unfold dict_get. by rewrite Hp, Hn.
  - intros docs' parameters' Hp Hn. unfold bind at 1.
    destruct (encode self docs parameters h) as [[[]|e] h1]; [|done].
    by rewrite Heff, Hp, Hn.
Qed.

Lemma encode_parameters_witness :
  encode Toy.executor [0]
    {["access_paths" := PStr "@c"; "batch_size" := PInt 1]} Toy.h_nested
  = encode (with_batch_size 1 (with_access_paths "@c" Toy.executor))
      [0] ∅ Toy.h_nested
  ∧ embedding_of
      (encode Toy.executor [0]
         {["access_paths" := PStr "@c"; "batch_size" := PInt 1]}
         Toy.h_nested).2 0 = None
  ∧ embedding_of
      (bind (encode Toy.executor [0]
               {["access_paths" := PStr "@c"; "batch_size" := PInt 1]})
         (λ _, encode Toy.executor [0] ∅) Toy.h_nested).2 0
    = Some (replicate 512 5).
Proof.
  destruct (encode_parameters Toy.executor [0]
              {["access_paths" := PStr "@c"; "batch_size" := PInt 1]}
              Toy.h_nested)
    as (Heff & Hpath & _ & _ & Hnext).
  split; [|split].
  - rewrite (Hpath "@c") by reflexivity.
    destruct (encode_parameters (with_access_paths "@c" Toy.executor) [0]
                (delete "access_paths"
                   {["access_paths" := PStr "@c"; "batch_size" := PInt 1]})
                Toy.h_nested)
      as (_ & _ & Hsize & _).
    rewrite (Hsize 1%Z) by reflexivity.
    reflexivity.
  - rewrite Heff. vm_compute. reflexivity.
  - rewrite (Hnext [0] ∅) by reflexivity. vm_compute. reflexivity.
Defined.

(** C7: when [traversal_paths] is given, the constructor adds exactly one
    entry to the log of warnings, the deprecation warning, and the executor
    that it returns has that value as its [access_paths], whatever the
    [access_paths] argument; the outcome is the one of a construction with
    that value as [access_paths] and no [traversal_paths], so that encoding
    is the same.  Without [traversal_paths] the log is left as it was and the
    [access_paths] argument is kept. *)
Theorem init_traversal_paths `{Transformers} (m : string) (btm : option string)
    (ml : Z) (dev ap : string) (bs : Z) (log : list Warning) :
  (∀ tp, ∃ o,
     __init__ m btm ml dev ap (Some tp) bs log
       = (o, log ++ [traversal_paths_warning])
     ∧ (∀ self, o = Returned self → access_paths self = tp)
     ∧ __init__ m btm ml dev tp None bs log = (o, log))
  ∧ (∃ o,
     __init__ m btm ml dev ap None bs log = (o, log)
     ∧ (∀ self, o = Returned self → access_paths self = ap)).
Proof.
  split; [intros tp|]; rewrite !init_eq; simpl;
    destruct (CLIPTokenizer_from_pretrained _) as [e|tk];
    try (eexists; repeat split; done);
    destruct (CLIPModel_from_pretrained _) as [e|mdl];
    try (eexists; repeat split; done);
    destruct (eval_to _ _) as [e|mdl'];
    try (eexists; repeat split; done);
    eexists; repeat split; by intros self [= <-].
Qed.

Lemma init_traversal_paths_witness :
  ∃ self,
    __init__ "openai/clip-vit-base-patch32" None 77 "cpu" "@r" (Some "@c") 32 []
      = (Returned self, [traversal_paths_warning])
    ∧ access_paths self = "@c"
    ∧ __init__ "openai/clip-vit-base-patch32" None 77 "cpu" "@c" None 32 []
      = (Returned self, []).
Proof.
  destruct (init_traversal_paths "openai/clip-vit-base-patch32" None 77
              "cpu" "@r" 32 []) as [Halias _].
  destruct (Halias "@c") as (o & Hinit & Hpath & Hsame).
  exists (with_access_paths "@c" Toy.executor).
  assert (o = Returned (with_access_paths "@c" Toy.executor)) as ->.
  { change (o = (__init__ "openai/clip-vit-base-patch32" None 77 "cpu" "@r"
                   (Some "@c") 32 []).1).
    by rewrite Hinit. }
  split; [exact Hinit|]. split; [by apply Hpath|exact Hsame].
Defined.

(** C8: let the loop of [encode] reach batch [b] after the batches [pre]
    have been completed, and let tokenization, the move to the device or the
    forward pass raise [e] on the texts of [b].  Then [encode] raises that
    same [e]; the store it leaves is the one reached after [pre], with the
    embeddings written so far; and every document outside [pre], those of
    [b] and of the remaining batches included, is as it was before the
    call. *)
Theorem encode_error_propagates `{DocArray} (self : CLIPTextEncoder)
    (docs : DocumentArray) (parameters : gmap string pyval) (h h1 : store)
    (pre post : list DocumentArray) (b : DocumentArray) (e : exn) :
  encode_batches self docs parameters h = (Returned (pre ++ b :: post), h) →
  for_each pre (encode_body self) h = (Returned tt, h1) →
  embed_texts self (batch_texts h1 b) = inl e →
  encode self docs parameters h = (Raised e, h1)
  ∧ (∀ x, x ∉ concat pre → h1 !! x = h !! x).
Proof.
  intros Hb Hpre Hemb. split.
  - by rewrite encode_eq, Hb, for_each_app, Hpre, for_each_cons,
      encode_body_eq, Hemb.
  - intros x Hx.
    pose proof (for_each_body_lookup_notin self pre h x Hx) as Hl.
    by rewrite Hpre in Hl.
Qed.

Lemma encode_error_propagates_witness :
  encode Toy.executor [0; 1; 2] {["batch_size" := PInt 1]} Toy.h_fail
  = (Raised (Exception "RuntimeError" "forward pass failed"),
     (encode_body Toy.executor [0] Toy.h_fail).2)
  ∧ embedding_of (encode_body Toy.executor [0] Toy.h_fail).2 0
    = Some (replicate 512 5)
  ∧ (encode_body Toy.executor [0] Toy.h_fail).2 !! 1 = Toy.h_fail !! 1
  ∧ (encode_body Toy.executor [0] Toy.h_fail).2 !! 2 = Toy.h_fail !! 2.
Proof.
  destruct (encode_error_propagates Toy.executor [0; 1; 2]
              {["batch_size" := PInt 1]} Toy.h_fail
              (encode_body Toy.executor [0] Toy.h_fail).2
              [[0]] [[2]] [1]
              (Exception "RuntimeError" "forward pass failed"))
    as [Hraise Hframe].
  - reflexivity.
  - reflexivity.
  - reflexivity.
  - split; [exact Hraise|]. split; [reflexivity|].
    split; apply Hframe; simpl; rewrite list_elem_of_singleton; lia.
Defined.

(** C9, as the code has it: the tokenizer of a constructed executor is the
    one loaded under the name kept in [base_tokenizer_model]; that name is
    the model identifier when no tokenizer identifier is given, and the given
    identifier when it is not the empty string. *)
Theorem init_tokenizer_identifier `{Transformers} (m : string) (btm : option string)
    (ml : Z) (dev ap : string) (tp : option string) (bs : Z)
    (log log' : list Warning) (self : CLIPTextEncoder) :
  __init__ m btm ml dev ap tp bs log = (Returned self, log') →
  CLIPTokenizer_from_pretrained (base_tokenizer_model self) = inr (tokenizer self)
  ∧ (btm = None → base_tokenizer_model self = m)
  ∧ (∀ s, btm = Some s → s ≠ "" → base_tokenizer_model self = s).
Proof.
  rewrite init_eq. simpl.
  destruct (CLIPTokenizer_from_pretrained _) as [e|tk] eqn:Htk; [done|].
  destruct (CLIPModel_from_pretrained _) as [e|mdl]; [done|].
  destruct (eval_to _ _) as [e|mdl']; [done|].
  intros [= <- _]. simpl. split; [done|]. split.
  - by intros ->.
  - intros s -> Hs. simpl. destruct (String.eqb_spec s ""); done.
Qed.

Lemma init_tokenizer_identifier_witness :
  ∃ self,
    __init__ "openai/clip-vit-base-patch32" (Some "openai/clip-vit-base-patch16")
      77 "cpu" "@r" None 32 [] = (Returned self, [])
    ∧ base_tokenizer_model self = "openai/clip-vit-base-patch16"
    ∧ CLIPTokenizer_from_pretrained "openai/clip-vit-base-patch16"
      = inr (tokenizer self).
Proof.
  exists Toy.executor16. split; [reflexivity|].
  destruct (init_tokenizer_identifier "openai/clip-vit-base-patch32"
              (Some "openai/clip-vit-base-patch16") 77 "cpu" "@r" None 32 [] []
              Toy.executor16 eq_refl) as (Hload & _ & Hgiven).
  split; [|exact Hload].
  apply (Hgiven "openai/clip-vit-base-patch16"); [reflexivity|discriminate].
Defined.

(** The second half of C9 as it is written fails for the empty string: it is
    a given tokenizer identifier, and the tokenizer is loaded under the model
    identifier all the same. *)
Lemma init_empty_tokenizer_identifier_not_used :
  ∃ self,
    __init__ "openai/clip-vit-base-patch32" (Some "") 77 "cpu" "@r" None 32 []
      = (Returned self, [])
    ∧ base_tokenizer_model self = "openai/clip-vit-base-patch32"
    ∧ base_tokenizer_model self ≠ "".
Proof. eexists. split; [reflexivity|]. split; [reflexivity|discriminate]. Qed.

(** C10: the fallback is decided by the truth value of [base_tokenizer_model]:
    with the empty string the constructor does what it does with [None], and
    the tokenizer of the executor is loaded under the model identifier. *)
Theorem init_falsy_tokenizer_identifier `{Transformers} (m : string) (ml : Z)
    (dev ap : string) (tp : option string) (bs : Z) (log : list Warning) :
  __init__ m (Some "") ml dev ap tp bs log = __init__ m None ml dev ap tp bs log
  ∧ (∀ btm, truthy btm = false →
       __init__ m btm ml dev ap tp bs log = __init__ m None ml dev ap tp bs log)
  ∧ (∀ self log',
       __init__ m (Some "") ml dev ap tp bs log = (Returned self, log') →
       base_tokenizer_model self = m
       ∧ CLIPTokenizer_from_pretrained m = inr (tokenizer self)).
Proof.
  split; [by rewrite !init_eq|]. split.
  - intros [s|] Hf; [|done]. rewrite !init_eq. simpl in *. by rewrite Hf.
  - intros self log'. rewrite init_eq. simpl.
    destruct (CLIPTokenizer_from_pretrained _) as [e|tk] eqn:Htk; [done|].
    destruct (CLIPModel_from_pretrained _) as [e|mdl]; [done|].
    destruct (eval_to _ _) as [e|mdl']; [done|].
    by intros [= <- _].
Qed.

Lemma init_falsy_tokenizer_identifier_witness :
  ∃ self,
    __init__ "openai/clip-vit-base-patch32" (Some "") 77 "cpu" "@r" None 32 []
      = (Returned self, [])
    ∧ base_tokenizer_model self = "openai/clip-vit-base-patch32"
    ∧ CLIPTokenizer_from_pretrained "openai/clip-vit-base-patch32"
      = inr (tokenizer self).
Proof.
  exists Toy.executor. split; [reflexivity|].
  destruct (init_falsy_tokenizer_identifier "openai/clip-vit-base-patch32" 77
              "cpu" "@r" None 32 []) as (_ & _ & Hload).
  exact (Hload Toy.executor [] eq_refl).
Defined.


(** ** Further properties of the executor *)

Section More.
Context `{DocArray}.
Implicit Types (h : store) (x : ref) (self : CLIPTextEncoder).
Implicit Types (b : DocumentArray) (batches : list DocumentArray).

Lemma raised_eta {S A} (p : outcome A * S) (e : exn) :
  p.1 = Raised e → p = (Raised e, p.2).
Proof. destruct p as [o s]. simpl. by intros ->. Qed.

(** An exception of the loop comes from the model call of one batch, after
    the batches before it have been completed. *)
Lemma for_each_body_raised self batches h h' e :
  for_each batches (encode_body self) h = (Raised e, h') →
  ∃ pre b post, batches = pre ++ b :: post
    ∧ for_each pre (encode_body self) h = (Returned tt, h')
    ∧ embed_texts self (batch_texts h' b) = inl e.
Proof.
  revert h. induction batches as [|b batches IH]; intros h Hrun; [done|].
  rewrite for_each_cons, encode_body_eq in Hrun.
  destruct (embed_texts self (batch_texts h b)) as [e'|embeddings] eqn:Hemb.
  - injection Hrun as <- <-. by exists [], b, batches.
  - apply IH in Hrun as (pre & b' & post & -> & Hpre & Hemb').
    exists (b :: pre), b', post. split; [done|]. split; [|done].
    by rewrite for_each_cons, encode_body_eq, Hemb.
Qed.

Lemma frame_encode self docs parameters h :
  frame h (encode self docs parameters h).2.
Proof.
  rewrite encode_eq.
  destruct (encode_batches _ _ _ _) as [[batches|e] h0] eqn:Hb.
  - apply encode_batches_inv in Hb as (-> & _). apply frame_for_each_body.
  - apply encode_batches_raised in Hb as ->. apply frame_refl.
Qed.

Lemma qualifying_frame h h' selected :
  frame h h' → qualifying h' selected = qualifying h selected.
Proof.
  intros Hf. unfold qualifying.
  induction selected as [|x selected IH]; [done|]. simpl.
  by rewrite (frame_text_of h h' x Hf), IH.
Qed.

Lemma qualifying_app h l1 l2 :
  qualifying h (l1 ++ l2) = qualifying h l1 ++ qualifying h l2.
Proof. apply List.filter_app. Qed.
End More.

(** X1: once the selection [docs[path]] has given a document array, [encode]
    raises no exception of its own.  When it raises [e], either the batching
    raised [e], with the store unchanged, or the model call of some batch
    raised [e] after the batches before it were completed, and the store is
    the one these left. *)
Theorem encode_raises_origin `{DocArray} (self : CLIPTextEncoder)
    (docs : DocumentArray) (parameters : gmap string pyval) (h h' : store)
    (selected : DocumentArray) (e : exn) :
  getitem h docs (dict_get parameters "access_paths" (PStr (access_paths self)))
    = inr selected →
  encode self docs parameters h = (Raised e, h') →
  (batch (qualifying h selected)
     (dict_get parameters "batch_size" (PInt (batch_size self))) = inl e
   ∧ h' = h)
  ∨ (∃ pre b post,
       encode_batches self docs parameters h = (Returned (pre ++ b :: post), h)
       ∧ concat (pre ++ b :: post) = qualifying h selected
       ∧ for_each pre (encode_body self) h = (Returned tt, h')
       ∧ embed_texts self (batch_texts h' b) = inl e).
Proof.
  intros Hsel. rewrite encode_eq, encode_batches_eq, Hsel.
  destruct (batch _ _) as [e'|batches] eqn:Hb.
  { intros [= <- <-]. by left. }
  intros Hrun. right.
  apply for_each_body_raised in Hrun as (pre & b & post & -> & Hpre & Hemb).
  exists pre, b, post. split; [done|]. split; [|done].
  by apply batch_inr_concat in Hb.
Qed.

Lemma encode_raises_origin_witness :
  let parameters : gmap string pyval := {["batch_size" := PInt 1]} in
  let e := Exception "RuntimeError" "forward pass failed" in
  let h' := (encode Toy.executor [0; 1; 2] parameters Toy.h_fail).2 in
  (batch (qualifying Toy.h_fail [0; 1; 2]) (PInt 1) = inl e ∧ h' = Toy.h_fail)
  ∨ (∃ pre b post,
       encode_batches Toy.executor [0; 1; 2] parameters Toy.h_fail
         = (Returned (pre ++ b :: post), Toy.h_fail)
       ∧ concat (pre ++ b :: post) = qualifying Toy.h_fail [0; 1; 2]
       ∧ for_each pre (encode_body Toy.executor) Toy.h_fail = (Returned tt, h')
       ∧ embed_texts Toy.executor (batch_texts h' b) = inl e).
Proof.
  intros parameters e h'.
  apply (encode_raises_origin Toy.executor [0; 1; 2] parameters Toy.h_fail h'
           [0; 1; 2] e).
  - reflexivity.
  - apply raised_eta. vm_compute. reflexivity.
Defined.

(** X2: a request in which no selected document has a non-empty text, an
    empty request for one, is not an error: with a positive batch size
    [encode] returns and the store is as before, whatever the model would do. *)
Theorem encode_no_qualifying_documents `{DocArray} (self : CLIPTextEncoder)
    (docs : DocumentArray) (parameters : gmap string pyval) (h : store)
    (selected : DocumentArray) (n : Z) :
  getitem h docs (dict_get parameters "access_paths" (PStr (access_paths self)))
    = inr selected →
  dict_get parameters "batch_size" (PInt (batch_size self)) = PInt n →
  (0 < n)%Z →
  (∀ x, x ∈ selected → truthy (text_of h x) = false) →
  encode self docs parameters h = (Returned tt, h).
Proof.
  intros Hsel Hbs Hn Hnone.
  assert (qualifying h selected = []) as Hq.
  { destruct (qualifying h selected) as [|x q] eqn:Hq; [done|].
    assert (x ∈ qualifying h selected) as Hx by (rewrite Hq; left).
    apply elem_of_qualifying in Hx as [Hx Ht]. rewrite (Hnone x Hx) in Ht. done. }
  rewrite encode_eq, encode_batches_eq, Hsel, Hbs, Hq.
  destruct (batch_positive (@nil ref) n Hn) as (batches & -> & _ & Hlen & _).
  simpl in Hlen. rewrite Nat.div_small in Hlen by lia.
  by destruct batches.
Qed.

Lemma encode_no_qualifying_documents_witness :
  encode Toy.executor [1] ∅ Toy.h3 = (Returned tt, Toy.h3)
  ∧ encode Toy.executor [] ∅ Toy.h3 = (Returned tt, Toy.h3).
Proof.
  split.
  - apply (encode_no_qualifying_documents Toy.executor [1] ∅ Toy.h3 [1] 32);
      [reflexivity|reflexivity|lia|].
    intros x Hx. apply list_elem_of_singleton in Hx as ->. reflexivity.
  - apply (encode_no_qualifying_documents Toy.executor [] ∅ Toy.h3 [] 32);
      [reflexivity|reflexivity|lia|].
    intros x Hx. by apply elem_of_nil in Hx.
Defined.

(** X3: a document that the effective path does not select is not touched,
    whatever its text and whatever the outcome of the call. *)
Theorem encode_unselected_untouched `{DocArray} (self : CLIPTextEncoder)
    (docs : DocumentArray) (parameters : gmap string pyval) (h : store)
    (selected : DocumentArray) (x : ref) :
  getitem h docs (dict_get parameters "access_paths" (PStr (access_paths self)))
    = inr selected →
  x ∉ selected →
  (encode self docs parameters h).2 !! x = h !! x.
Proof.
  intros Hsel Hx. rewrite encode_eq.
  destruct (encode_batches _ _ _ _) as [[batches|e] h0] eqn:Hb.
  - apply encode_batches_inv in Hb as (-> & selected' & Hsel' & _ & Hcat).
    assert (selected' = selected) as -> by congruence.
    apply for_each_body_lookup_notin. rewrite Hcat, elem_of_qualifying. tauto.
  - by apply encode_batches_raised in Hb as ->.
Qed.

Lemma encode_unselected_untouched_witness :
  (encode Toy.executor [0] {["access_paths" := PStr "@c"]} Toy.h_nested).2 !! 0
  = Some (mkDocument "root" (Some "title") None [] [1; 2]).
Proof.
  rewrite (encode_unselected_untouched Toy.executor [0]
             {["access_paths" := PStr "@c"]} Toy.h_nested [1; 2] 0).
  - reflexivity.
  - reflexivity.
  - rewrite !not_elem_of_cons. repeat split; try lia. apply not_elem_of_nil.
Defined.

(** X4: with a model whose rows depend on their own text only, a call that
    returns leaves on every selected document with a non-empty text [t] the
    row of [t]; an embedding that the document carried before is replaced,
    and nothing else of the document changes. *)
Theorem encode_row_wise_embedding `{DocArray} (self : CLIPTextEncoder)
    (f : string → list scalar) (docs : DocumentArray)
    (parameters : gmap string pyval) (h h' : store)
    (selected : DocumentArray) (x : ref) (doc : Document) (t : string) :
  row_wise self f →
  getitem h docs (dict_get parameters "access_paths" (PStr (access_paths self)))
    = inr selected →
  x ∈ selected →
  h !! x = Some doc →
  text doc = Some t →
  t ≠ "" →
  encode self docs parameters h = (Returned tt, h') →
  h' !! x = Some (set_embedding (f t) doc).
Proof.
  intros Hrow Hsel Hx Hdoc Ht Hne Hrun.
  rewrite (encode_row_wise_lookup _ _ _ _ _ _ _ x Hrow Hsel Hrun).
  assert (text_of h x = Some t) as Htext by (unfold text_of; by rewrite Hdoc).
  rewrite decide_True.
  - by rewrite Htext, Hdoc.
  - apply elem_of_qualifying. split; [done|]. rewrite Htext. simpl.
    by destruct (String.eqb_spec t "").
Qed.

Lemma encode_row_wise_embedding_witness :
  (encode Toy.executor [0; 1] ∅ Toy.h_stale).2 !! 0
  = Some (set_embedding (replicate 512 5) Toy.stale).
Proof.
  apply (encode_row_wise_embedding Toy.executor _ [0; 1] ∅ Toy.h_stale _
           [0; 1] 0 Toy.stale "hello" toy_row_wise).
  - reflexivity.
  - left.
  - reflexivity.
  - reflexivity.
  - discriminate.
  - apply returned_eta. vm_compute. reflexivity.
Defined.

(** X5: encoding is idempotent.  With a model whose rows depend on their own
    text only, a second call on the same documents, selecting the same ones,
    leaves the store as the first call left it. *)
Theorem encode_idempotent `{DocArray} (self : CLIPTextEncoder)
    (f : string → list scalar) (docs : DocumentArray)
    (parameters parameters' : gmap string pyval) (h h1 h2 : store)
    (selected : DocumentArray) :
  row_wise self f →
  getitem h docs (dict_get parameters "access_paths" (PStr (access_paths self)))
    = inr selected →
  getitem h1 docs (dict_get parameters' "access_paths" (PStr (access_paths self)))
    = inr selected →
  encode self docs parameters h = (Returned tt, h1) →
  encode self docs parameters' h1 = (Returned tt, h2) →
  h2 = h1.
Proof.
  intros Hrow Hsel Hsel1 Hrun Hrun1.
  assert (frame h h1) as Hf.
  { pose proof (frame_encode self docs parameters h) as Hf. by rewrite Hrun in Hf. }
  apply map_eq. intros x.
  rewrite (encode_row_wise_lookup _ _ _ _ _ _ _ x Hrow Hsel1 Hrun1).
  rewrite (qualifying_frame h h1 selected Hf), (frame_text_of h h1 x Hf).
  rewrite (encode_row_wise_lookup _ _ _ _ _ _ _ x Hrow Hsel Hrun).
  case_decide; [|done]. by destruct (h !! x).
Qed.

Lemma encode_idempotent_witness :
  (encode Toy.executor [0; 1; 2] {["batch_size" := PInt 2]}
     (encode Toy.executor [0; 1; 2] ∅ Toy.h3).2).2
  = (encode Toy.executor [0; 1; 2] ∅ Toy.h3).2.
Proof.
  apply (encode_idempotent Toy.executor _ [0; 1; 2] ∅ {["batch_size" := PInt 2]}
           Toy.h3 _ _ [0; 1; 2] toy_row_wise).
  - reflexivity.
  - reflexivity.
  - apply returned_eta. vm_compute. reflexivity.
  - apply returned_eta. vm_compute. reflexivity.
Defined.

(** ** A sequence of requests *)

Section Requests.
Context `{DocArray}.
Implicit Types (h : store) (x : ref) (self : CLIPTextEncoder).
Implicit Types (requests : list DocumentArray).

Lemma encode_embedding_inv self d docs parameters h h' selected x :
  output_shape self d → is_Some (h !! x) →
  getitem h docs (dict_get parameters "access_paths" (PStr (access_paths self)))
    = inr selected →
  encode self docs parameters h = (Returned tt, h') →
  x ∈ qualifying h selected ∨ (∃ v, embedding_of h x = Some v ∧ length v = d) →
  ∃ v, embedding_of h' x = Some v ∧ length v = d.
Proof.
  intros Hshape Hs Hsel. rewrite encode_eq.
  destruct (encode_batches _ _ _ _) as [[batches|e] h0] eqn:Hb; [|done].
  apply encode_batches_inv in Hb as (-> & selected' & Hsel' & _ & Hcat).
  assert (selected' = selected) as -> by congruence.
  intros Hrun Hx. apply (for_each_body_embedding self d batches h h' x); try done.
  by rewrite Hcat.
Qed.

Lemma requests_embedding_inv self d requests parameters h h' x :
  output_shape self d →
  (∀ h0 docs,
     getitem h0 docs (dict_get parameters "access_paths" (PStr (access_paths self)))
       = inr docs) →
  is_Some (h !! x) →
  for_each requests (λ docs, encode self docs parameters) h = (Returned tt, h') →
  x ∈ qualifying h (concat requests)
    ∨ (∃ v, embedding_of h x = Some v ∧ length v = d) →
  ∃ v, embedding_of h' x = Some v ∧ length v = d.
Proof.
  intros Hshape Hroot. revert h.
  induction requests as [|r requests IH]; intros h Hs Hrun Hx.
  - injection Hrun as <-. destruct Hx as [Hx|Hx]; [|done].
    by apply elem_of_nil in Hx.
  - rewrite for_each_cons in Hrun.
    pose proof (frame_encode self r parameters h) as Hf.
    destruct (encode self r parameters h) as [[[]|e] h1] eqn:Hr; [|done].
    simpl in Hf. apply (IH h1); [by apply (frame_is_Some h)|done|].
    simpl in Hx. rewrite qualifying_app, elem_of_app in Hx.
    rewrite (qualifying_frame h h1 _ Hf).
    destruct Hx as [[Hx|Hx]|Hx]; [right|by left|right].
    + by apply (encode_embedding_inv self d r parameters h h1 r x);
        [| | |  |left].
    + by apply (encode_embedding_inv self d r parameters h h1 r x);
        [| | |  |right].
Qed.

Lemma requests_row_wise_lookup self f requests parameters h h' x :
  row_wise self f →
  (∀ h0 docs,
     getitem h0 docs (dict_get parameters "access_paths" (PStr (access_paths self)))
       = inr docs) →
  for_each requests (λ docs, encode self docs parameters) h = (Returned tt, h') →
  h' !! x =
  if decide (x ∈ qualifying h (concat requests))
  then set_embedding (f (default "" (text_of h x))) <$> h !! x
  else h !! x.
Proof.
  intros Hrow Hroot. revert h.
  induction requests as [|r requests IH]; intros h Hrun.
  - injection Hrun as <-. by rewrite decide_False by apply not_elem_of_nil.
  - rewrite for_each_cons in Hrun.
    pose proof (frame_encode self r parameters h) as Hf.
    destruct (encode self r parameters h) as [[[]|e] h1] eqn:Hr; [|done].
    simpl in Hf. rewrite (IH h1 Hrun).
    rewrite (qualifying_frame h h1 _ Hf), (frame_text_of h h1 x Hf).
    rewrite (encode_row_wise_lookup _ _ _ _ _ _ _ x Hrow (Hroot h r) Hr).
    simpl. rewrite qualifying_app.
    destruct (decide (x ∈ qualifying h (concat requests))) as [Hc|Hc],
             (decide (x ∈ qualifying h r)) as [Hq|Hq],
             (decide (x ∈ qualifying h r ++ qualifying h (concat requests)))
               as [Ha|Ha];
      try done; try (destruct Ha; apply elem_of_app; tauto).
    + by destruct (h !! x).
    + apply elem_of_app in Ha. tauto.
Qed.
End Requests.

(** X6: the integration test, for every request size.  Let the host call
    [encode] on one request after the other, with the same parameters and a
    path that selects the documents of the request themselves.  When all
    calls return, every document of every request that has a non-empty text
    carries a vector of as many numbers as the rows of the model have. *)
Theorem encode_requests_embeddings `{DocArray} (self : CLIPTextEncoder)
    (d : nat) (requests : list DocumentArray) (parameters : gmap string pyval)
    (h h' : store) (x : ref) (doc : Document) :
  output_shape self d →
  (∀ h0 docs,
     getitem h0 docs (dict_get parameters "access_paths" (PStr (access_paths self)))
       = inr docs) →
  for_each requests (λ docs, encode self docs parameters) h = (Returned tt, h') →
  x ∈ concat requests →
  h !! x = Some doc →
  truthy (text doc) = true →
  ∃ doc' v, h' !! x = Some doc' ∧ embedding doc' = Some v ∧ length v = d.
Proof.
  intros Hshape Hroot Hrun Hx Hdoc Htext.
  destruct (requests_embedding_inv self d requests parameters h h' x)
    as (v & Hv & Hlen); [done|done|by eexists|done| |].
  - left. apply elem_of_qualifying. split; [done|].
    unfold text_of. by rewrite Hdoc.
  - unfold embedding_of in Hv. destruct (h' !! x) as [doc'|]; [|done].
    by exists doc', v.
Qed.

Lemma encode_requests_embeddings_witness :
  ∃ doc' v,
    (for_each [seq 0 10; seq 10 10; seq 20 10; seq 30 10; seq 40 10]
       (λ docs, encode Toy.executor docs ∅) Toy.h50).2 !! 49 = Some doc'
    ∧ embedding doc' = Some v ∧ length v = 512.
Proof.
  apply (encode_requests_embeddings Toy.executor 512
           [seq 0 10; seq 10 10; seq 20 10; seq 30 10; seq 40 10] ∅ Toy.h50 _
           49 (Toy.doc "d" "just some random text here") toy_output_shape).
  - intros h0 docs. reflexivity.
  - apply returned_eta. vm_compute. reflexivity.
  - apply (bool_decide_unpack _). vm_compute. exact I.
  - reflexivity.
  - reflexivity.
Defined.

(** X7: how the documents are cut into requests does not matter.  With a
    model whose rows depend on their own text only, two sequences of requests
    that hold the same documents, served from the same store, leave the same
    store when all calls return. *)
Theorem encode_requests_partition_independent `{DocArray}
    (self : CLIPTextEncoder) (f : string → list scalar)
    (requests1 requests2 : list DocumentArray)
    (parameters : gmap string pyval) (h h1 h2 : store) :
  row_wise self f →
  (∀ h0 docs,
     getitem h0 docs (dict_get parameters "access_paths" (PStr (access_paths self)))
       = inr docs) →
  concat requests1 ≡ₚ concat requests2 →
  for_each requests1 (λ docs, encode self docs parameters) h = (Returned tt, h1) →
  for_each requests2 (λ docs, encode self docs parameters) h = (Returned tt, h2) →
  h1 = h2.
Proof.
  intros Hrow Hroot Hperm Hrun1 Hrun2. apply map_eq. intros x.
  rewrite (requests_row_wise_lookup _ _ _ _ _ _ x Hrow Hroot Hrun1).
  rewrite (requests_row_wise_lookup _ _ _ _ _ _ x Hrow Hroot Hrun2).
  assert (x ∈ qualifying h (concat requests1)
          ↔ x ∈ qualifying h (concat requests2)) as Hiff.
  { by rewrite !elem_of_qualifying, Hperm. }
  destruct (decide (x ∈ qualifying h (concat requests1))),
           (decide (x ∈ qualifying h (concat requests2)));
    try done; exfalso; tauto.
Qed.

Lemma encode_requests_partition_independent_witness :
  (for_each [[0]; [1]; [2]] (λ docs, encode Toy.executor docs ∅) Toy.h3).2
  = (for_each [[2; 1; 0]] (λ docs, encode Toy.executor docs ∅) Toy.h3).2.
Proof.
  apply (encode_requests_partition_independent Toy.executor _
           [[0]; [1]; [2]] [[2; 1; 0]] ∅ Toy.h3 _ _ toy_row_wise).
  - intros h0 docs. reflexivity.
  - apply (Permutation_rev [0; 1; 2]).
  - apply returned_eta. vm_compute. reflexivity.
  - apply returned_eta. vm_compute. reflexivity.
Defined.

(** ** One batch *)

(** X8: a batch is all or nothing.  When the body of the loop raises [e] the
    store is as it was before the batch, and [e] comes from the tokenizer,
    or, the tokenizer having answered, from the move of the tokens to the
    device, or, both having answered, from the text tower. *)
Theorem encode_body_atomic `{Transformers} (self : CLIPTextEncoder)
    (b : DocumentArray) (h h' : store) (e : exn) :
  encode_body self b h = (Raised e, h') →
  h' = h
  ∧ (tokenizer_call (tokenizer self) (batch_texts h b) (max_length self) = inl e
     ∨ (∃ toks,
          tokenizer_call (tokenizer self) (batch_texts h b) (max_length self)
            = inr toks
          ∧ tokens_to toks (device self) = inl e)
     ∨ (∃ toks toks',
          tokenizer_call (tokenizer self) (batch_texts h b) (max_length self)
            = inr toks
          ∧ tokens_to toks (device self) = inr toks'
          ∧ _generate_input_tokens self (batch_texts h b) h = (Returned toks', h)
          ∧ get_text_features (model self) toks' = inl e)).
Proof.
  intros Hrun. rewrite encode_body_eq in Hrun. unfold embed_texts in Hrun.
  destruct (tokenizer_call _ _ _) as [e1|toks] eqn:Htok.
  { injection Hrun as <- <-. split; [done|]. by left. }
  destruct (tokens_to toks _) as [e2|toks'] eqn:Hto.
  { injection Hrun as <- <-. split; [done|]. right; left. by exists toks. }
  destruct (get_text_features _ _) as [e3|embeddings] eqn:Hfeat; [|done].
  injection Hrun as <- <-. split; [done|]. right; right.
  exists toks, toks'. do 2 (split; [done|]). split; [|done].
  unfold _generate_input_tokens, bind, call. rewrite Htok. cbn. by rewrite Hto.
Qed.

Lemma encode_body_atomic_witness :
  (encode_body Toy.executor [1; 2] Toy.h_fail).2 = Toy.h_fail.
Proof.
  destruct (encode_body_atomic Toy.executor [1; 2] Toy.h_fail
              (encode_body Toy.executor [1; 2] Toy.h_fail).2
              (Exception "RuntimeError" "forward pass failed")) as [Hsame _].
  - apply raised_eta. vm_compute. reflexivity.
  - exact Hsame.
Defined.

(** X9: the rows are paired with the documents of the batch by [zip], and
    nothing checks that there are as many rows as documents.  Rows beyond the
    documents are dropped, and when the model answers with fewer rows than
    documents, the documents beyond the rows are left as they were, without
    an error. *)
Theorem encode_body_row_count `{Transformers} (self : CLIPTextEncoder)
    (b : DocumentArray) (h : store) (embeddings : list (list scalar)) :
  embed_texts self (batch_texts h b) = inr embeddings →
  encode_body self b h
  = (Returned tt,
     assign (zip (take (length embeddings) b) (take (length b) embeddings)) h)
  ∧ (∀ x, x ∉ take (length embeddings) b →
       (encode_body self b h).2 !! x = h !! x).
Proof.
  intros Hemb. rewrite encode_body_eq, Hemb.
  assert (zip (take (length embeddings) b) (take (length b) embeddings)
          = zip b embeddings) as Hzip by apply zip_with_take_both.
  rewrite Hzip. split; [done|]. intros x Hx. simpl.
  apply assign_lookup_notin. intros Hin. apply Hx.
  apply list_elem_of_fmap in Hin as ([y v] & -> & Hin).
  rewrite <- Hzip in Hin. by apply elem_of_zip_l in Hin.
Qed.

Lemma encode_body_row_count_witness :
  (@encode_body Short.transformers Short.executor [0; 1] Short.h2).2 !! 1
  = Some (Short.doc "b" "hi").
Proof.
  destruct (@encode_body_row_count Short.transformers Short.executor [0; 1]
              Short.h2 [[5]] eq_refl) as [_ Hrest].
  transitivity (Short.h2 !! 1); [apply (Hrest 1)|reflexivity].
  simpl. rewrite list_elem_of_singleton. lia.
Defined.

(** ** Edge cases of a call *)

Section Edges.
Context `{DocArray}.
Implicit Types (h : store) (x : ref) (self : CLIPTextEncoder).
Implicit Types (b : DocumentArray) (batches : list DocumentArray).

Lemma assign_keeps_embedding pairs h x v :
  embedding_of h x = Some v → ∃ v', embedding_of (assign pairs h) x = Some v'.
Proof.
  intros Hv.
  destruct (assign_embedding_inv (λ _, True) pairs h x) as (v' & Hv' & _).
  - by apply Forall_forall.
  - unfold embedding_of in Hv. destruct (h !! x); [by eexists|done].
  - right. by exists v.
  - by exists v'.
Qed.

Lemma for_each_body_keeps_embedding self batches h x v :
  embedding_of h x = Some v →
  ∃ v', embedding_of (for_each batches (encode_body self) h).2 x = Some v'.
Proof.
  revert h v. induction batches as [|b batches IH]; intros h v Hv.
  - by exists v.
  - rewrite for_each_cons, encode_body_eq.
    destruct (embed_texts _ _) as [e|embeddings]; [by exists v|].
    destruct (assign_keeps_embedding (zip b embeddings) h x v Hv) as [v1 Hv1].
    by apply (IH _ v1).
Qed.

Lemma batch_texts_concat h batches :
  batch_texts h (concat batches) = concat (map (batch_texts h) batches).
Proof.
  induction batches as [|b batches IH]; [done|].
  simpl. unfold batch_texts in *. by rewrite map_app, IH.
Qed.

Lemma batch_inr_nonempty {A} (da : list A) (v : pyval) (bl : list (list A))
    (c : list A) :
  batch da v = inr bl → c ∈ bl → c ≠ [].
Proof.
  intros Hb Hc. destruct v as [|n|s]; [done| |done].
  destruct (decide (0 < n)%Z) as [Hn|Hn].
  - destruct (batch_positive da n Hn) as (bl' & Hb' & _ & _ & Hk).
    assert (bl' = bl) as -> by congruence.
    apply list_elem_of_lookup in Hc as [k Hc].
    destruct (Hk k c Hc) as [_ [Hpos _]]. intros ->. simpl in Hpos. lia.
  - rewrite batch_not_positive in Hb; [done|]. intros ? [= <-]. lia.
Qed.
End Edges.

(** X11: [encode] never unsets an embedding.  A document that carries an
    embedding before the call carries one after it, whether the call returns
    or raises. *)
Theorem encode_keeps_embeddings `{DocArray} (self : CLIPTextEncoder)
    (docs : DocumentArray) (parameters : gmap string pyval) (h : store)
    (x : ref) (v : list scalar) :
  embedding_of h x = Some v →
  ∃ v', embedding_of (encode self docs parameters h).2 x = Some v'.
Proof.
  intros Hv. rewrite encode_eq.
  destruct (encode_batches _ _ _ _) as [[batches|e] h0] eqn:Hb.
  - apply encode_batches_inv in Hb as (-> & _).
    by apply (for_each_body_keeps_embedding self batches h x v).
  - apply encode_batches_raised in Hb as ->. by exists v.
Qed.

Lemma encode_keeps_embeddings_witness :
  ∃ v', embedding_of
          (encode Toy.executor [1; 0] {["batch_size" := PInt 1]}
             (<[1 := Toy.doc "b" "<unk>"]> Toy.h_stale)).2 0 = Some v'.
Proof.
  apply (encode_keeps_embeddings Toy.executor [1; 0] {["batch_size" := PInt 1]}
           (<[1 := Toy.doc "b" "<unk>"]> Toy.h_stale) 0 [7; 7]).
  reflexivity.
Defined.

(** X12: what reaches the model.  Every batch of the loop holds at least one
    document; the texts read for it when its turn comes are the ones the
    documents had at the start of the call, one per document and none of
    them empty; and over the batches the texts are those of the qualifying
    documents, in the order of the selection. *)
Theorem encode_model_inputs `{DocArray} (self : CLIPTextEncoder)
    (docs : DocumentArray) (parameters : gmap string pyval) (h h1 : store)
    (pre post : list DocumentArray) (b : DocumentArray) (o : outcome unit) :
  encode_batches self docs parameters h = (Returned (pre ++ b :: post), h) →
  for_each pre (encode_body self) h = (o, h1) →
  b ≠ []
  ∧ batch_texts h1 b = batch_texts h b
  ∧ length (batch_texts h1 b) = length b
  ∧ Forall (λ t, t ≠ "") (batch_texts h1 b)
  ∧ (∃ selected,
       getitem h docs (dict_get parameters "access_paths" (PStr (access_paths self)))
         = inr selected
       ∧ concat (map (batch_texts h) (pre ++ b :: post))
         = batch_texts h (qualifying h selected)).
Proof.
  intros Hb Hpre.
  apply encode_batches_inv in Hb as (_ & selected & Hsel & Hbatch & Hcat).
  assert (frame h h1) as Hf.
  { pose proof (frame_for_each_body self pre h) as Hf. by rewrite Hpre in Hf. }
  split; [|split; [|split; [|split]]].
  - apply (batch_inr_nonempty _ _ _ b Hbatch).
    apply elem_of_app. right. left.
  - by apply frame_batch_texts.
  - unfold batch_texts. by rewrite length_map.
  - rewrite (frame_batch_texts h h1 b Hf). unfold batch_texts.
    apply Forall_fmap, Forall_forall. intros x Hx. simpl.
    assert (x ∈ qualifying h selected) as Hq.
    { rewrite <- Hcat, concat_app, concat_cons, !elem_of_app. by right; left. }
    apply elem_of_qualifying in Hq as [_ Hq].
    destruct (text_of h x) as [t|]; [|done]. simpl in *.
    by destruct (String.eqb_spec t "").
  - exists selected. split; [done|]. by rewrite <- batch_texts_concat, Hcat.
Qed.

Lemma encode_model_inputs_witness :
  batch_texts (encode_body Toy.executor [0] Toy.h3).2 [2] = ["hi"]
  ∧ Forall (λ t, t ≠ "") (batch_texts (encode_body Toy.executor [0] Toy.h3).2 [2]).
Proof.
  destruct (encode_model_inputs Toy.executor [0; 1; 2]
              {["batch_size" := PInt 1]} Toy.h3
              (encode_body Toy.executor [0] Toy.h3).2 [[0]] [] [2]
              (Returned tt))
    as (_ & Hsame & _ & Hne & _).
  - reflexivity.
  - reflexivity.
  - split; [|exact Hne]. rewrite Hsame. reflexivity.
Defined.

(** ** The constructor, again *)

(** X13: the constructor checks none of its arguments.  It returns as soon
    as the tokenizer loads, the model loads and the model moves to the
    device, and keeps the maximum length, the batch size and the device as
    they are given, zero or negative numbers included.  When it raises, the
    error is the one of the first of these three steps that failed, the
    tokenizer being loaded before the model. *)
Theorem init_raises_origin `{Transformers} (m : string) (btm : option string)
    (ml : Z) (dev ap : string) (tp : option string) (bs : Z)
    (log : list Warning) :
  (∀ e log', __init__ m btm ml dev ap tp bs log = (Raised e, log') →
     CLIPTokenizer_from_pretrained (py_or btm m) = inl e
     ∨ (∃ tk, CLIPTokenizer_from_pretrained (py_or btm m) = inr tk
          ∧ CLIPModel_from_pretrained m = inl e)
     ∨ (∃ tk mdl, CLIPTokenizer_from_pretrained (py_or btm m) = inr tk
          ∧ CLIPModel_from_pretrained m = inr mdl
          ∧ eval_to mdl dev = inl e))
  ∧ (∀ tk mdl mdl',
       CLIPTokenizer_from_pretrained (py_or btm m) = inr tk →
       CLIPModel_from_pretrained m = inr mdl →
       eval_to mdl dev = inr mdl' →
       ∃ self log',
         __init__ m btm ml dev ap tp bs log = (Returned self, log')
         ∧ max_length self = ml ∧ batch_size self = bs ∧ device self = dev
         ∧ pretrained_model_name_or_path self = m
         ∧ tokenizer self = tk ∧ model self = mdl').
Proof.
  rewrite init_eq. split.
  - intros e log'. simpl.
    destruct (CLIPTokenizer_from_pretrained _) as [e1|tk].
    { intros [= <- _]. by left. }
    destruct (CLIPModel_from_pretrained _) as [e2|mdl].
    { intros [= <- _]. right; left. by exists tk. }
    destruct (eval_to _ _) as [e3|mdl'] eqn:Hto; [|done].
    intros [= <- _]. right; right. by exists tk, mdl.
  - intros tk mdl mdl' -> -> ->. simpl. by do 2 eexists.
Qed.

Lemma init_raises_origin_witness :
  (∃ self log',
     __init__ "openai/clip-vit-base-patch32" None (-1) "cpu" "@r" None 0 []
       = (Returned self, log')
     ∧ max_length self = (-1)%Z ∧ batch_size self = 0%Z)
  ∧ Toy.from_pretrained "" = inl (Exception "OSError" "cannot load").
Proof.
  destruct (init_raises_origin "openai/clip-vit-base-patch32" None (-1) "cpu"
              "@r" None 0 []) as [_ Hreturns].
  destruct (init_raises_origin "" None 77 "cpu" "@r" None 32 []) as [Hraises _].
  split.
  - destruct (Hreturns "openai/clip-vit-base-patch32"
                "openai/clip-vit-base-patch32" "openai/clip-vit-base-patch32"
                eq_refl eq_refl eq_refl)
      as (self & log' & Hinit & Hml & Hbs & _).
    by exists self, log'.
  - destruct (Hraises (Exception "OSError" "cannot load") [] eq_refl)
      as [Htok|[(tk & Htok & _)|(tk & mdl & Htok & _)]];
      [exact Htok|discriminate Htok|discriminate Htok].
Defined.
